(** * csv_type_infer: quote-aware record splitting and per-column type inference

    A shallow embedding of [src/csv_type_infer.c].  Characters are [ascii],
    a C string is the list of its characters up to (not including) the
    terminating NUL, the line buffer that [split_csv_line] rewrites in place
    is a [list ascii] indexed by offset, and the [types] array is a list
    updated by index. *)

From Stdlib Require Import Ascii String.
From stdpp Require Import base option list.

Open Scope list_scope.

Set Warnings "-abstract-large-number".

(** ** Characters and C strings *)

Definition NUL : ascii := zero.
Definition DQUOTE : ascii := ascii_of_nat 34.

(** A C string as seen through a [const char *]: the characters from the
    pointer up to the terminator. *)
Definition cstr := list ascii.

(** Dereferencing a pointer into a C string: the terminator is read at the
    end. *)
Definition peek (p : cstr) : ascii :=
  match p with
  | [] => NUL
  | c :: _ => c
  end.

(** [isspace] and [isdigit] of <ctype.h> in the C locale (the program never
    calls setlocale). *)
Definition isspace (c : ascii) : bool :=
  let n := nat_of_ascii c in
  ((9 <=? n) && (n <=? 13)) || (n =? 32).

Definition isdigit (c : ascii) : bool :=
  let n := nat_of_ascii c in
  (48 <=? n) && (n <=? 57).

(** The sign test of lines 17, 32 and 48. *)
Definition is_sign (c : ascii) : bool := Ascii.eqb c "+" || Ascii.eqb c "-".

(** The exponent marker test of line 46. *)
Definition is_exp (c : ascii) : bool := Ascii.eqb c "e" || Ascii.eqb c "E".

(** The loops over [isspace]: [p] advances while it reads white space. *)
Fixpoint skip_space (p : cstr) : cstr :=
  match p with
  | c :: p' => if isspace c then skip_space p' else p
  | [] => []
  end.

(** The optional sign: [p] advances over one leading [+] or [-]. *)
Definition skip_sign (p : cstr) : cstr :=
  if is_sign (peek p) then tail p else p.

(** The loops over [isdigit]: [p] advances over digits and the flag is set
    when there is one; the flag and the pointer after the loop are returned. *)
Fixpoint scan_digits (dig : bool) (p : cstr) : bool * cstr :=
  match p with
  | c :: p' => if isdigit c then scan_digits true p' else (dig, p)
  | [] => (dig, [])
  end.

(** ** Literal classifiers *)

Definition is_integer (s : cstr) : bool :=
  let p := skip_space s in
  let p := skip_sign p in
  let '(dig, p) := scan_digits false p in
  let p := skip_space p in
  dig && Ascii.eqb (peek p) NUL.

Definition is_real (s : cstr) : bool :=
  let p := skip_space s in
  let p := skip_sign p in
  let '(dig, p) := scan_digits false p in
  let '(dig, p) :=
    if Ascii.eqb (peek p) "." then scan_digits dig (tail p) else (dig, p) in
  if negb dig then false
  else
    let exponent :=
      if is_exp (peek p) then
        let p := tail p in
        let p := skip_sign p in
        let '(expd, p) := scan_digits false p in
        if negb expd then None else Some p
      else Some p in
    match exponent with
    | None => false
    | Some p =>
        let p := skip_space p in
        Ascii.eqb (peek p) NUL
    end.

(** ** Column type state *)

Inductive ColType : Type :=
  | TYPE_UNKNOWN
  | TYPE_INTEGER
  | TYPE_REAL
  | TYPE_TEXT.

(** The numeric value of each enumerator. *)
Definition rank (t : ColType) : nat :=
  match t with
  | TYPE_UNKNOWN => 0
  | TYPE_INTEGER => 1
  | TYPE_REAL => 2
  | TYPE_TEXT => 3
  end.

(** The body of the per-column loop of [main]: what one cell does to the
    state of its column. *)
Definition observe (t : ColType) (cell : cstr) : ColType :=
  if Ascii.eqb (peek cell) NUL then t
  else
    match t with
    | TYPE_TEXT => t
    | _ =>
        if is_integer cell then
          match t with
          | TYPE_UNKNOWN => TYPE_INTEGER
          | _ => t
          end
        else if is_real cell then
          match t with
          | TYPE_UNKNOWN | TYPE_INTEGER => TYPE_REAL
          | _ => t
          end
        else TYPE_TEXT
    end.

(** [for(int i=0;i<n;i++) body], threading the state. *)
Definition for_range {S : Type} (n : nat) (body : nat → S → S) (s : S) : S :=
  foldl (λ s i, body i s) s (seq 0 n).

(** The cell read at line 192, where a null pointer reads as the empty
    string; the row is already padded, and an index it does not have reads
    as the empty string too. *)
Definition cell_at (cells : list cstr) (i : nat) : cstr :=
  default [] (cells !! i).

(** One data row folded into the [types] array. *)
Definition observe_row (ncols : nat) (types : list ColType) (cells : list cstr)
  : list ColType :=
  for_range ncols
    (λ i tys,
       match tys !! i with
       | Some t => <[i := observe t (cell_at cells i)]> tys
       | None => tys
       end)
    types.

(** [types[i]=TYPE_UNKNOWN] for every column, after the header is split. *)
Definition init_types (ncols : nat) : list ColType :=
  replicate ncols TYPE_UNKNOWN.

(** The padding of short rows at line 189: the entries from [c] up to
    [ncols] are set to the empty string, where [cells] holds the [c] cells
    the splitter returned. *)
Definition pad_cells (c ncols : nat) (cells : list cstr) : list cstr :=
  cells ++ replicate (ncols - c) [].

(** The body of the loop over data rows, from the cells the splitter
    returned for the row. *)
Definition row_step (ncols : nat) (types : list ColType) (cells : list cstr)
  : list ColType :=
  observe_row ncols types (pad_cells (length cells) ncols cells).

(** All data rows, in file order. *)
Definition scan_rows (ncols : nat) (types : list ColType)
  (rows : list (list cstr)) : list ColType :=
  foldl (row_step ncols) types rows.

(** The values column [i] reads over the data rows, after padding. *)
Definition column (ncols i : nat) (rows : list (list cstr)) : list cstr :=
  map (λ cells, cell_at (pad_cells (length cells) ncols cells) i) rows.

(** The state of one column after a sequence of values, from [TYPE_UNKNOWN]. *)
Definition observe_all (t : ColType) (values : list cstr) : ColType :=
  foldl observe t values.

(** The default of line 209 on one state. *)
Definition resolve (t : ColType) : ColType :=
  match t with
  | TYPE_UNKNOWN => TYPE_TEXT
  | _ => t
  end.

(** [for(int i=0;i<ncols;i++) if(types[i]==TYPE_UNKNOWN) types[i]=TYPE_TEXT;] *)
Definition finalize (ncols : nat) (types : list ColType) : list ColType :=
  for_range ncols
    (λ i tys,
       match tys !! i with
       | Some TYPE_UNKNOWN => <[i := TYPE_TEXT]> tys
       | _ => tys
       end)
    types.

(** The types reported for a file with [ncols] header columns and the given
    data rows. *)
Definition infer_rows (ncols : nat) (rows : list (list cstr)) : list ColType :=
  finalize ncols (scan_rows ncols (init_types ncols) rows).

Definition lit (s : string) : cstr := list_ascii_of_string s.

(** ** The line buffer *)

(** Reading the buffer at an offset.  The buffer of [main] ends with the
    terminator of the line; an offset past the end of the list reads as
    the terminator. *)
Definition rd (buf : list ascii) (p : nat) : ascii := default NUL (buf !! p).

(** Writing one character in place. *)
Definition wr (buf : list ascii) (p : nat) (c : ascii) : list ascii :=
  <[p := c]> buf.

(** The C string that starts at offset [off] of the buffer. *)
Fixpoint until_nul (l : list ascii) : cstr :=
  match l with
  | [] => []
  | c :: l' => if Ascii.eqb c NUL then [] else c :: until_nul l'
  end.

Definition cstr_at (buf : list ascii) (off : nat) : cstr :=
  until_nul (drop off buf).

(** ** Record splitter *)

(** The copy loop of a quoted field (lines 78 to 84), from read offset [p]
    and write offset [w]; the buffer and both offsets after the loop. *)
Fixpoint unquote_loop (fuel : nat) (buf : list ascii) (p w : nat)
  : option (list ascii * nat * nat) :=
  match fuel with
  | 0 => None
  | S fuel =>
      if Ascii.eqb (rd buf p) DQUOTE then
        if Ascii.eqb (rd buf (p + 1)) DQUOTE
        then unquote_loop fuel (wr buf w DQUOTE) (p + 2) (w + 1)
        else Some (buf, p + 1, w)
      else if Ascii.eqb (rd buf p) NUL then Some (buf, p, w)
      else unquote_loop fuel (wr buf w (rd buf p)) (p + 1) (w + 1)
  end.

(** The scan to the next delimiter or to the end of the line (lines 87
    and 96). *)
Fixpoint skip_to_delim (fuel : nat) (buf : list ascii) (delim : ascii) (p : nat)
  : option nat :=
  match fuel with
  | 0 => None
  | S fuel =>
      if negb (Ascii.eqb (rd buf p) NUL) && negb (Ascii.eqb (rd buf p) delim)
      then skip_to_delim fuel buf delim (p + 1)
      else Some p
  end.

(** The outer loop of [split_csv_line].  [cells] holds the offsets stored in
    the first [count] entries of the array of cell pointers, in order. *)
Fixpoint split_loop (fuel : nat) (max_cells : nat) (delim : ascii)
  (buf : list ascii) (p : nat) (count : nat) (cells : list nat)
  : option (nat * list nat * list ascii) :=
  match fuel with
  | 0 => None
  | S fuel =>
      if negb (Ascii.eqb (rd buf p) NUL) && (count <? max_cells) then
        let start := p in
        if Ascii.eqb (rd buf p) DQUOTE then
          '(buf, p, w) ← unquote_loop fuel buf (p + 1) start;
          let buf := wr buf w NUL in
          p ← skip_to_delim fuel buf delim p;
          let cells := cells ++ [start + 1] in
          let count := count + 1 in
          let p := if Ascii.eqb (rd buf p) delim then p + 1 else p in
          split_loop fuel max_cells delim buf p count cells
        else
          p ← skip_to_delim fuel buf delim p;
          if Ascii.eqb (rd buf p) delim then
            split_loop fuel max_cells delim (wr buf p NUL) (p + 1)
              (count + 1) (cells ++ [start])
          else
            split_loop fuel max_cells delim buf p (count + 1) (cells ++ [start])
      else Some (count, cells, buf)
  end.

(** [split_csv_line] on the line held in the buffer: the returned count and
    the strings the first [count] cell pointers point to on return. *)
Definition split_csv_line (line : cstr) (max_cells : nat) (delim : ascii)
  : option (nat * list cstr) :=
  let buf := line ++ [NUL] in
  match split_loop (length buf + 2) max_cells delim buf 0 0 [] with
  | Some (count, cells, buf) => Some (count, map (cstr_at buf) cells)
  | None => None
  end.

(** [MAX_COLS], the bound [main] passes to the splitter. *)
Definition MAX_COLS : nat := 8192.

(** ** The scan of a file *)

(** The loop over the data lines of [main], each line as [chomp] leaves it:
    the line is split, the cells past the returned count are padded, and
    the row is folded into the types. *)
Fixpoint scan_lines (ncols : nat) (types : list ColType) (lines : list cstr)
  : option (list ColType) :=
  match lines with
  | [] => Some types
  | line :: lines' =>
      match split_csv_line line MAX_COLS "," with
      | Some (c, cells) =>
          scan_lines ncols (observe_row ncols types (pad_cells c ncols cells))
            lines'
      | None => None
      end
  end.

(** The types [main] prints for a header line (as [strip_bom] and [chomp]
    leave it) and the data lines: none for a header without columns. *)
Definition infer_file (header : cstr) (data : list cstr)
  : option (list ColType) :=
  match split_csv_line header MAX_COLS "," with
  | Some (ncols, _) =>
      if ncols =? 0 then Some []
      else
        match scan_lines ncols (init_types ncols) data with
        | Some types => Some (finalize ncols types)
        | None => None
        end
  | None => None
  end.

(** ** Reference splitting, in the words of the specification *)

(** The substrings produced by splitting on every occurrence of the
    delimiter; the empty line has the one empty substring. *)
Fixpoint split_on (d : ascii) (l : list ascii) : list cstr :=
  match l with
  | [] => [[]]
  | c :: l' =>
      if Ascii.eqb c d then [] :: split_on d l'
      else
        match split_on d l' with
        | f :: fs => (c :: f) :: fs
        | [] => [[c]]
        end
  end.

(** The same list without its last substring when that one is empty. *)
Definition drop_empty_last (fs : list cstr) : list cstr :=
  match last fs with
  | Some [] => take (length fs - 1) fs
  | _ => fs
  end.

(** The contents of a line: no character of it is the terminator. *)
Definition nul_free (line : cstr) : bool :=
  forallb (λ c, negb (Ascii.eqb c NUL)) line.

(** A line without quote characters. *)
Definition quote_free (line : cstr) : bool :=
  forallb (λ c, negb (Ascii.eqb c DQUOTE)) line.

(** ** Evidence of one value *)

(** What the tests of lines 193 to 203 find in one cell: nothing for the
    empty string, else the first of integer, real and text that applies. *)
Definition classify (cell : cstr) : ColType :=
  if Ascii.eqb (peek cell) NUL then TYPE_UNKNOWN
  else if is_integer cell then TYPE_INTEGER
  else if is_real cell then TYPE_REAL
  else TYPE_TEXT.

(** The larger of two states in the order of the enumeration. *)
Definition join (a b : ColType) : ColType :=
  if rank a <? rank b then b else a.

(** The cells the splitter returns for a line under the bound and the
    delimiter of [main]. *)
Definition cells_of (line : cstr) : list cstr :=
  match split_csv_line line MAX_COLS "," with
  | Some (_, cells) => cells
  | None => []
  end.

(** The content of a field as it is written between quotes: every quote
    character doubled. *)
Fixpoint quote_escape (s : cstr) : cstr :=
  match s with
  | [] => []
  | c :: s' =>
      if Ascii.eqb c DQUOTE then DQUOTE :: DQUOTE :: quote_escape s'
      else c :: quote_escape s'
  end.

(** ** Lines as sequences of fields *)

(** A field as it stands in a line: bare text; a quoted content followed
    by the text between the closing quote and the next delimiter; or a
    quoted content whose closing quote is missing. *)
Inductive field : Type :=
  | Bare (text : cstr)
  | Quoted (content junk : cstr)
  | Open (content : cstr).

(** The characters of a field in the line. *)
Definition encode (f : field) : cstr :=
  match f with
  | Bare text => text
  | Quoted content junk => DQUOTE :: quote_escape content ++ DQUOTE :: junk
  | Open content => DQUOTE :: quote_escape content
  end.

(** The line made of a first field and the fields after it, with the
    delimiter between them. *)
Fixpoint join_fields (d : ascii) (f : field) (fs : list field) : cstr :=
  match fs with
  | [] => encode f
  | g :: fs' => encode f ++ d :: join_fields d g fs'
  end.

(** Text without the terminator and the delimiter that does not start with
    a quote. *)
Definition plain (d : ascii) (s : cstr) : bool :=
  forallb (λ c, negb (Ascii.eqb c NUL) && negb (Ascii.eqb c d)) s &&
  negb (Ascii.eqb (peek s) DQUOTE).

Definition nonempty (s : cstr) : bool :=
  match s with
  | [] => false
  | _ :: _ => true
  end.

(** The fields a line can be cut into without ambiguity: a quoted content
    is not empty, and only the last field may lack its closing quote. *)
Definition field_ok (d : ascii) (last : bool) (f : field) : bool :=
  match f with
  | Bare text => plain d text
  | Quoted content junk => nonempty content && nul_free content && plain d junk
  | Open content => last && nonempty content && nul_free content
  end.

Fixpoint fields_ok (d : ascii) (f : field) (fs : list field) : bool :=
  match fs with
  | [] => field_ok d true f
  | g :: fs' => field_ok d false f && fields_ok d g fs'
  end.

(** What the splitter returns for a field: bare text as it is, and a quoted
    content without its first character. *)
Definition value (f : field) : cstr :=
  match f with
  | Bare text => text
  | Quoted content _ => tail content
  | Open content => tail content
  end.

(** The values of the fields of a line; an empty bare field at the end of
    the line has none. *)
Fixpoint values (f : field) (fs : list field) : list cstr :=
  match fs with
  | [] =>
      match f with
      | Bare [] => []
      | _ => [value f]
      end
  | g :: fs' => value f :: values g fs'
  end.

(** ** Line preparation *)

Definition LF : ascii := ascii_of_nat 10.
Definition CR : ascii := ascii_of_nat 13.

(** The test of the loop of [chomp]. *)
Definition is_eol (c : ascii) : bool := Ascii.eqb c LF || Ascii.eqb c CR.

(** [strlen] of the string at the start of a buffer. *)
Definition strlen (buf : list ascii) : nat := length (until_nul buf).

(** The loop of [chomp] from length [n]: while the character before offset
    [n] is a line feed or a carriage return, it is overwritten with the
    terminator and [n] goes down by one. *)
Fixpoint chomp_loop (buf : list ascii) (n : nat) : list ascii :=
  match n with
  | 0 => buf
  | S n' => if is_eol (rd buf n') then chomp_loop (wr buf n' NUL) n' else buf
  end.

(** [chomp] on the line held in the buffer: the string the buffer holds on
    return. *)
Definition chomp (s : cstr) : cstr :=
  let buf := s ++ [NUL] in
  cstr_at (chomp_loop buf (strlen buf)) 0.


(** [strip_bom]: when the first three bytes are the mark, the string moves
    three bytes down. *)
Definition strip_bom (s : cstr) : cstr :=
  if Ascii.eqb (rd s 0) (ascii_of_nat 239) &&
     Ascii.eqb (rd s 1) (ascii_of_nat 187) &&
     Ascii.eqb (rd s 2) (ascii_of_nat 191)
  then drop 3 s
  else s.

(** The types [main] prints for the lines of a file as [fgets] returns
    them: none for a file without a first line or without columns. *)
Definition main_types (lines : list cstr) : option (list ColType) :=
  match lines with
  | [] => Some []
  | first :: rest => infer_file (chomp (strip_bom first)) (map chomp rest)
  end.

(** Whether a string ends in a line feed or a carriage return. *)
Definition ends_eol (s : cstr) : bool :=
  match last s with
  | Some c => is_eol c
  | None => false
  end.

(** ** The JSON writer *)

Definition BACKSLASH : ascii := ascii_of_nat 92.

(** The loop of [print_json] over the characters of a header name: a
    backslash is put before every backslash and every quote. *)
Fixpoint json_escape (s : cstr) : list ascii :=
  match s with
  | [] => []
  | c :: s' =>
      if Ascii.eqb c BACKSLASH || Ascii.eqb c DQUOTE
      then BACKSLASH :: c :: json_escape s'
      else c :: json_escape s'
  end.

(** The name printed for a type: TEXT unless the type is integer or real. *)
Definition type_name (t : ColType) : list ascii :=
  match t with
  | TYPE_INTEGER => lit "INTEGER"
  | TYPE_REAL => lit "REAL"
  | _ => lit "TEXT"
  end.

(** A string between two quote characters. *)
Definition quoted (s : list ascii) : list ascii := [DQUOTE] ++ s ++ [DQUOTE].

(** The comma printed before every item but the first. *)
Definition comma_before (i : nat) : list ascii :=
  if i =? 0 then [] else lit ",".

(** [print_json]: the characters written to the standard output. *)
Definition print_json (headers : list cstr) (types : list ColType) (n : nat)
  : list ascii :=
  let out := lit "{" ++ quoted (lit "columns") ++ lit ":[" in
  let out :=
    for_range n
      (λ i out, out ++ comma_before i ++ quoted (json_escape (cell_at headers i)))
      out in
  let out := out ++ lit "]," ++ quoted (lit "types") ++ lit ":[" in
  let out :=
    for_range n
      (λ i out,
         out ++ comma_before i ++
         quoted (type_name (default TYPE_UNKNOWN (types !! i))))
      out in
  out ++ lit "]}".

(** What [main] prints when there is no header or no column. *)
Definition empty_json : list ascii :=
  lit "{" ++ quoted (lit "columns") ++ lit ":[]," ++ quoted (lit "types") ++
  lit ":[]}".

(** The standard output of [main] for the lines of a file as [fgets]
    returns them. *)
Definition main_output (lines : list cstr) : option (list ascii) :=
  match lines with
  | [] => Some empty_json
  | first :: rest =>
      match split_csv_line (chomp (strip_bom first)) MAX_COLS "," with
      | Some (ncols, headers) =>
          if ncols =? 0 then Some empty_json
          else
            match scan_lines ncols (init_types ncols) (map chomp rest) with
            | Some types =>
                Some (print_json headers (finalize ncols types) ncols)
            | None => None
            end
      | None => None
      end
  end.

(** Items with a comma between them. *)
Fixpoint commas (items : list (list ascii)) : list ascii :=
  match items with
  | [] => []
  | [x] => x
  | x :: items' => x ++ lit "," ++ commas items'
  end.

(** Reading back the body of a JSON string in which only quotes and
    backslashes are escaped: the character after a backslash is taken as it
    is; a bare quote or a backslash at the end is an error. *)
Fixpoint json_unescape (s : list ascii) : option cstr :=
  match s with
  | [] => Some []
  | c :: s' =>
      if Ascii.eqb c DQUOTE then None
      else if Ascii.eqb c BACKSLASH then
        match s' with
        | e :: s'' =>
            if Ascii.eqb e BACKSLASH || Ascii.eqb e DQUOTE
            then option_map (cons e) (json_unescape s'')
            else None
        | [] => None
        end
      else option_map (cons c) (json_unescape s')
  end.

(** ** The parts of a real literal *)

(** [is_real] from line 46 on: the optional exponent and the white space
    up to the terminator. *)
Definition real_after_mantissa (p : cstr) : bool :=
  let exponent :=
    if is_exp (peek p) then
      let p := tail p in
      let p := skip_sign p in
      let '(expd, p) := scan_digits false p in
      if negb expd then None else Some p
    else Some p in
  match exponent with
  | None => false
  | Some p =>
      let p := skip_space p in
      Ascii.eqb (peek p) NUL
  end.

(** [is_real] from line 39 on, with the flag and the pointer the first
    loop over digits leaves. *)
Definition real_after_digits (dig : bool) (p : cstr) : bool :=
  let '(dig, p) :=
    if Ascii.eqb (peek p) "." then scan_digits dig (tail p) else (dig, p) in
  if negb dig then false else real_after_mantissa p.

(** An optional sign. *)
Definition sign_opt (sg : cstr) : Prop :=
  sg = [] ∨ sg = ["+"%char] ∨ sg = ["-"%char].

(** An optional fraction: nothing, allowed after digits only, or a dot and
    digits, of which there is at least one before or after the dot. *)
Definition fraction_part (has_int : bool) (fr : cstr) : Prop :=
  (fr = [] ∧ has_int = true) ∨
  ∃ fp, fr = "."%char :: fp ∧ forallb isdigit fp = true ∧
        has_int || nonempty fp = true.

(** An optional exponent: a marker, an optional sign, one or more digits. *)
Definition exponent_part (ex : cstr) : Prop :=
  ex = [] ∨
  ∃ e sg ed, ex = e :: sg ++ ed ∧ is_exp e = true ∧ sign_opt sg ∧
             ed ≠ [] ∧ forallb isdigit ed = true.

(** Fields written out with the delimiter between them. *)
Fixpoint join_with (d : ascii) (items : list cstr) : cstr :=
  match items with
  | [] => []
  | [x] => x
  | x :: items' => x ++ d :: join_with d items'
  end.

(** ** Reading the file *)

(** [LINE_BUF], the size of the line buffer of [main]. *)
Definition LINE_BUF : nat := 1048576.

(** [fgets] with room for [room] characters before the terminator: the
    characters read and the rest of the input.  Reading stops after a line
    feed, at the end of the input, or when the room is used up. *)
Fixpoint fgets (room : nat) (input : list ascii) : cstr * list ascii :=
  match input with
  | [] => ([], [])
  | c :: rest =>
      match room with
      | 0 => ([], input)
      | S room' =>
          if Ascii.eqb c LF then ([c], rest)
          else
            let '(line, rest') := fgets room' rest in
            (c :: line, rest')
      end
  end.

(** The lines the calls of [fgets] of lines 166 and 185 return for a buffer
    of [size] bytes, until the end of the input, where [fgets] returns the
    null pointer. *)
Fixpoint read_lines (fuel size : nat) (input : list ascii) : list cstr :=
  match fuel with
  | 0 => []
  | S fuel' =>
      match input with
      | [] => []
      | _ :: _ =>
          let '(line, rest) := fgets (size - 1) input in
          line :: read_lines fuel' size rest
      end
  end.

(** Every call reads at least one character, so one call for each
    character of the input is enough. *)
Definition file_lines (size : nat) (input : list ascii) : list cstr :=
  read_lines (length input) size input.

(** A string without a line feed. *)
Definition lf_free (s : cstr) : bool :=
  forallb (λ c, negb (Ascii.eqb c LF)) s.

(** * Properties *)

(** ** Index loops over an array *)

Lemma for_range_S {S : Type} (n : nat) (body : nat → S → S) (s : S) :
  for_range (Datatypes.S n) body s = body n (for_range n body s).
Proof.
  unfold for_range. rewrite seq_S, foldl_snoc. reflexivity.
Qed.

(** A loop whose body rewrites entry [i] alone, as a function of its old
    value, maps that function over the first [n] entries. *)
Lemma for_range_pointwise {A : Type} (body : nat → list A → list A)
  (g : nat → A → A) :
  (∀ i l j, i ≠ j → body i l !! j = l !! j) →
  (∀ i l, body i l !! i = g i <$> l !! i) →
  ∀ n l j,
    for_range n body l !! j = if decide (j < n) then g j <$> l !! j else l !! j.
Proof.
  intros Hne Heq n. induction n as [|n IH]; intros l j.
  - destruct (decide (j < 0)); [lia | reflexivity].
  - rewrite for_range_S. destruct (decide (j = n)) as [->|Hj].
    + rewrite Heq, IH.
      destruct (decide (n < n)); [lia|].
      destruct (decide (n < S n)); [reflexivity | lia].
    + rewrite Hne by congruence. rewrite IH.
      destruct (decide (j < n)), (decide (j < S n)); try lia; reflexivity.
Qed.

Lemma observe_row_lookup (ncols : nat) (types : list ColType)
  (cells : list cstr) (j : nat) :
  observe_row ncols types cells !! j =
    if decide (j < ncols)
    then (λ t, observe t (cell_at cells j)) <$> types !! j
    else types !! j.
Proof.
  unfold observe_row.
  apply (for_range_pointwise _ (λ i t, observe t (cell_at cells i))).
  - intros i l k Hik. destruct (l !! i); [|reflexivity].
    apply list_lookup_insert_ne, Hik.
  - intros i l. destruct (l !! i) as [t|] eqn:E; simpl.
    + apply list_lookup_insert_eq. eapply lookup_lt_Some, E.
    + exact E.
Qed.

Lemma finalize_lookup (ncols : nat) (types : list ColType) (j : nat) :
  finalize ncols types !! j =
    if decide (j < ncols) then resolve <$> types !! j else types !! j.
Proof.
  unfold finalize.
  apply (for_range_pointwise _ (λ _ t, resolve t)).
  - intros i l k Hik. destruct (l !! i) as [[]|]; try reflexivity.
    apply list_lookup_insert_ne, Hik.
  - intros i l. destruct (l !! i) as [t|] eqn:E; simpl.
    + destruct t; simpl; try exact E.
      apply list_lookup_insert_eq. eapply lookup_lt_Some, E.
    + exact E.
Qed.

(** Column [i] of the scan is the per-column fold over the values the
    column reads. *)
Lemma scan_rows_lookup (ncols i : nat) (rows : list (list cstr))
  (types : list ColType) :
  i < ncols →
  scan_rows ncols types rows !! i =
    (λ t, observe_all t (column ncols i rows)) <$> types !! i.
Proof.
  intros Hi. revert types. induction rows as [|r rows IH]; intros types.
  - simpl. destruct (types !! i); reflexivity.
  - unfold scan_rows in *. simpl. rewrite IH. unfold row_step.
    rewrite observe_row_lookup. destruct (decide (i < ncols)); [|lia].
    destruct (types !! i); reflexivity.
Qed.

Lemma init_types_lookup (ncols i : nat) :
  i < ncols → init_types ncols !! i = Some TYPE_UNKNOWN.
Proof. intros Hi. unfold init_types. apply lookup_replicate_2, Hi. Qed.

Lemma infer_rows_lookup (ncols i : nat) (rows : list (list cstr)) :
  i < ncols →
  infer_rows ncols rows !! i =
    Some (resolve (observe_all TYPE_UNKNOWN (column ncols i rows))).
Proof.
  intros Hi. unfold infer_rows. rewrite finalize_lookup.
  destruct (decide (i < ncols)); [|lia].
  rewrite scan_rows_lookup, init_types_lookup by assumption. reflexivity.
Qed.

(** ** Literal classifiers *)

Lemma isspace_not_marker (c : ascii) :
  isspace c = true → Ascii.eqb c "." = false ∧ is_exp c = false.
Proof.
  destruct c as [[] [] [] [] [] [] [] []]; intros H;
    solve [discriminate H | split; reflexivity].
Qed.

(** Where only white space remains before the terminator, neither a
    fraction nor an exponent starts. *)
Lemma blank_rest_not_marker (p : cstr) :
  peek (skip_space p) = NUL →
  Ascii.eqb (peek p) "." = false ∧ is_exp (peek p) = false.
Proof.
  destruct p as [|c p]; simpl.
  - intros _. split; reflexivity.
  - destruct (isspace c) eqn:Hc.
    + intros _. apply isspace_not_marker, Hc.
    + simpl. intros ->. split; reflexivity.
Qed.

Lemma is_integer_is_real (s : cstr) : is_integer s = true → is_real s = true.
Proof.
  unfold is_integer, is_real.
  destruct (scan_digits false (skip_sign (skip_space s))) as [dig p].
  intros H. apply andb_true_iff in H as [-> Hend].
  apply Ascii.eqb_eq in Hend.
  destruct (blank_rest_not_marker p Hend) as [-> ->]. simpl.
  rewrite Hend. reflexivity.
Qed.

(** A string whose first character is the terminator is no literal. *)
Lemma empty_not_literal (s : cstr) :
  peek s = NUL → is_integer s = false ∧ is_real s = false.
Proof.
  destruct s as [|c s]; simpl.
  - intros _. split; reflexivity.
  - intros ->. split; reflexivity.
Qed.

Lemma is_integer_nonempty (s : cstr) :
  is_integer s = true → Ascii.eqb (peek s) NUL = false.
Proof.
  intros H. destruct (Ascii.eqb (peek s) NUL) eqn:E; [|reflexivity].
  apply Ascii.eqb_eq, empty_not_literal in E. destruct E as [E _]. congruence.
Qed.

Lemma is_real_nonempty (s : cstr) :
  is_real s = true → Ascii.eqb (peek s) NUL = false.
Proof.
  intros H. destruct (Ascii.eqb (peek s) NUL) eqn:E; [|reflexivity].
  apply Ascii.eqb_eq, empty_not_literal in E. destruct E as [_ E]. congruence.
Qed.

(** ** Transitions of one column *)

Lemma observe_empty (t : ColType) : observe t [] = t.
Proof. reflexivity. Qed.

Lemma observe_integer (t : ColType) (s : cstr) :
  is_integer s = true →
  observe t s = match t with TYPE_UNKNOWN => TYPE_INTEGER | _ => t end.
Proof.
  intros H. unfold observe. rewrite (is_integer_nonempty s H), H.
  destruct t; reflexivity.
Qed.

Lemma observe_real (t : ColType) (s : cstr) :
  is_integer s = false → is_real s = true →
  observe t s =
    match t with TYPE_UNKNOWN | TYPE_INTEGER => TYPE_REAL | _ => t end.
Proof.
  intros Hi Hr. unfold observe. rewrite (is_real_nonempty s Hr), Hi, Hr.
  destruct t; reflexivity.
Qed.

Lemma observe_mono (t : ColType) (cell : cstr) :
  rank t ≤ rank (observe t cell).
Proof.
  unfold observe. destruct (Ascii.eqb (peek cell) NUL); [lia|].
  destruct t, (is_integer cell), (is_real cell); simpl; lia.
Qed.

Lemma observe_all_mono (values : list cstr) (t : ColType) :
  rank t ≤ rank (observe_all t values).
Proof.
  revert t. induction values as [|v values IH]; intros t; simpl; [lia|].
  etransitivity; [apply (observe_mono t v) | apply IH].
Qed.

Lemma observe_all_empties (n : nat) (t : ColType) :
  observe_all t (replicate n []) = t.
Proof. induction n as [|n IH]; simpl; [reflexivity | exact IH]. Qed.

Lemma observe_all_app (t : ColType) (xs ys : list cstr) :
  observe_all t (xs ++ ys) = observe_all (observe_all t xs) ys.
Proof. apply foldl_app. Qed.

Lemma row_step_lookup_ge (ncols i : nat) (types : list ColType)
  (cells : list cstr) :
  ncols ≤ i → row_step ncols types cells !! i = types !! i.
Proof.
  intros Hi. unfold row_step. rewrite observe_row_lookup.
  destruct (decide (i < ncols)); [lia | reflexivity].
Qed.

Lemma scan_rows_lookup_ge (ncols i : nat) (rows : list (list cstr))
  (types : list ColType) :
  ncols ≤ i → scan_rows ncols types rows !! i = types !! i.
Proof.
  intros Hi. revert types. induction rows as [|r rows IH]; intros types.
  - reflexivity.
  - unfold scan_rows in *. simpl. rewrite IH. apply row_step_lookup_ge, Hi.
Qed.

(** ** The type inferencer *)

(** C2: the state of a column never decreases along
    Unknown < Integer < Real < Text: one observation never lowers it, no
    sequence of data rows lowers any entry of the array of types, and a
    column that reads an integer literal, then a real literal that is no
    integer literal, then an integer literal, ends in Real (and is reported
    as Real). *)
Theorem C2_type_state_monotone :
  (∀ t cell, rank t ≤ rank (observe t cell)) ∧
  (∀ ncols rows (types : list ColType) i t t',
     types !! i = Some t →
     scan_rows ncols types rows !! i = Some t' →
     rank t ≤ rank t') ∧
  (∀ ncols i rows a b c,
     i < ncols →
     is_integer a = true →
     is_integer b = false → is_real b = true →
     is_integer c = true →
     column ncols i rows = [a; b; c] →
     scan_rows ncols (init_types ncols) rows !! i = Some TYPE_REAL ∧
     infer_rows ncols rows !! i = Some TYPE_REAL).
Proof.
  split; [exact observe_mono|]. split.
  - intros ncols rows types i t t' Ht Ht'.
    destruct (decide (i < ncols)) as [Hi|Hi].
    + rewrite scan_rows_lookup, Ht in Ht' by assumption.
      injection Ht' as <-. apply observe_all_mono.
    + rewrite scan_rows_lookup_ge, Ht in Ht' by lia.
      injection Ht' as <-. lia.
  - intros ncols i rows a b c Hi Ha Hb Hb' Hc Hcol.
    rewrite infer_rows_lookup, scan_rows_lookup, init_types_lookup, Hcol
      by assumption.
    unfold observe_all. simpl.
    rewrite (observe_integer _ a Ha), (observe_real _ b Hb Hb'),
      (observe_integer _ c Hc).
    split; reflexivity.
Qed.

Lemma C2_type_state_monotone_witness :
  rank TYPE_INTEGER ≤ rank TYPE_REAL ∧
  infer_rows 2 [[lit "1"; lit "x"]; [lit "2.5"]; [lit "3"; lit "y"]] !! 0
    = Some TYPE_REAL.
Proof.
  destruct C2_type_state_monotone as (_ & Hscan & Hseq). split.
  - apply (Hscan 2 [[lit "2.5"]] [TYPE_INTEGER; TYPE_TEXT] 0);
      reflexivity.
  - apply (Hseq 2 0 _ (lit "1") (lit "2.5") (lit "3"));
      solve [lia | reflexivity].
Defined.

(** C5: the boundary literals.  A padded 42 is an integer literal; 3.14e10
    is a real literal and no integer literal; 3. is a real literal; a lone
    dot and 1e are neither, so a column that reads one becomes Text; the
    empty string passes neither test and leaves every state as it is. *)
Theorem C5_literal_boundaries :
  is_integer (lit "  42  ") = true ∧
  observe TYPE_UNKNOWN (lit "  42  ") = TYPE_INTEGER ∧
  (is_real (lit "3.14e10") = true ∧ is_integer (lit "3.14e10") = false ∧
   observe TYPE_UNKNOWN (lit "3.14e10") = TYPE_REAL) ∧
  (is_real (lit "3.") = true ∧ observe TYPE_UNKNOWN (lit "3.") = TYPE_REAL) ∧
  (is_integer (lit ".") = false ∧ is_real (lit ".") = false ∧
   ∀ t, observe t (lit ".") = TYPE_TEXT) ∧
  (is_integer (lit "1e") = false ∧ is_real (lit "1e") = false ∧
   ∀ t, observe t (lit "1e") = TYPE_TEXT) ∧
  (is_integer (lit "") = false ∧ is_real (lit "") = false ∧
   ∀ t, observe t (lit "") = t).
Proof.
  repeat split; try reflexivity; intros []; reflexivity.
Qed.

(** C6: at the end of the input the default maps a column that is still
    Unknown to Text and leaves Integer, Real and Text as they are; a column
    that read only empty values is still Unknown then, and is reported as
    Text. *)
Theorem C6_finalize_defaults_unknown :
  (∀ ncols (types : list ColType) i t,
     i < ncols →
     types !! i = Some t →
     finalize ncols types !! i =
       Some (match t with TYPE_UNKNOWN => TYPE_TEXT | _ => t end)) ∧
  (∀ ncols rows i,
     i < ncols →
     Forall (λ v, v = []) (column ncols i rows) →
     scan_rows ncols (init_types ncols) rows !! i = Some TYPE_UNKNOWN ∧
     infer_rows ncols rows !! i = Some TYPE_TEXT).
Proof.
  split.
  - intros ncols types i t Hi Ht. rewrite finalize_lookup, Ht.
    destruct (decide (i < ncols)); [reflexivity | lia].
  - intros ncols rows i Hi Hall.
    rewrite infer_rows_lookup, scan_rows_lookup, init_types_lookup
      by assumption.
    simpl.
    assert (observe_all TYPE_UNKNOWN (column ncols i rows) = TYPE_UNKNOWN)
      as ->; [|split; reflexivity].
    induction Hall as [|v vs -> _ IH]; [reflexivity | exact IH].
Qed.

Lemma C6_finalize_defaults_unknown_witness :
  finalize 3 [TYPE_UNKNOWN; TYPE_REAL; TYPE_UNKNOWN] !! 2 = Some TYPE_TEXT ∧
  finalize 3 [TYPE_UNKNOWN; TYPE_REAL; TYPE_UNKNOWN] !! 1 = Some TYPE_REAL ∧
  infer_rows 2 [[lit "7"]; [lit "8"; lit ""]] !! 1 = Some TYPE_TEXT.
Proof.
  destruct C6_finalize_defaults_unknown as [Hfin Hrows].
  split; [|split].
  - apply (Hfin 3 [TYPE_UNKNOWN; TYPE_REAL; TYPE_UNKNOWN] 2 TYPE_UNKNOWN);
      [lia | reflexivity].
  - apply (Hfin 3 [TYPE_UNKNOWN; TYPE_REAL; TYPE_UNKNOWN] 1 TYPE_REAL);
      [lia | reflexivity].
  - apply (Hrows 2 [[lit "7"]; [lit "8"; lit ""]] 1); [lia|].
    repeat constructor.
Defined.

(** C7: every string the integer test accepts is accepted by the real test,
    and since the integer test runs first, such a value moves an Unknown
    column to Integer. *)
Theorem C7_integer_is_real_and_narrower_first (s : cstr) :
  is_integer s = true →
  is_real s = true ∧ observe TYPE_UNKNOWN s = TYPE_INTEGER.
Proof.
  intros H. split.
  - apply is_integer_is_real, H.
  - apply (observe_integer TYPE_UNKNOWN s H).
Qed.

Lemma C7_integer_is_real_and_narrower_first_witness :
  is_integer (lit " -17 ") = true ∧
  is_real (lit " -17 ") = true ∧
  observe TYPE_UNKNOWN (lit " -17 ") = TYPE_INTEGER.
Proof.
  split; [reflexivity|].
  apply (C7_integer_is_real_and_narrower_first (lit " -17 ")). reflexivity.
Defined.

(** C8: an empty value leaves every state as it is, and a column whose
    values are any number of empty strings, one integer literal, and any
    number of empty strings ends in Integer. *)
Theorem C8_empty_is_neutral :
  (∀ t, observe t [] = t) ∧
  (∀ ncols i rows n m k,
     i < ncols →
     is_integer k = true →
     column ncols i rows = replicate n [] ++ k :: replicate m [] →
     scan_rows ncols (init_types ncols) rows !! i = Some TYPE_INTEGER ∧
     infer_rows ncols rows !! i = Some TYPE_INTEGER).
Proof.
  split; [exact observe_empty|].
  intros ncols i rows n m k Hi Hk Hcol.
  rewrite infer_rows_lookup, scan_rows_lookup, init_types_lookup, Hcol
    by assumption.
  simpl. rewrite observe_all_app, observe_all_empties. unfold observe_all. simpl.
  rewrite (observe_integer _ k Hk).
  fold (observe_all TYPE_INTEGER (replicate m [])).
  rewrite observe_all_empties. split; reflexivity.
Qed.

Lemma C8_empty_is_neutral_witness :
  infer_rows 2 [[lit ""; lit "a"]; []; [lit "12"]; [lit ""]; []] !! 0
    = Some TYPE_INTEGER.
Proof.
  destruct C8_empty_is_neutral as [_ H].
  apply (H 2 0 [[lit ""; lit "a"]; []; [lit "12"]; [lit ""]; []] 2 2 (lit "12"));
    solve [lia | reflexivity].
Defined.

(** C10: the type reported for column [i] is a function of the values read
    at index [i] of the padded data rows alone: two inputs that agree there
    in every row report the same type for the column, whatever the other
    columns hold and however many of them there are. *)
Theorem C10_column_noninterference (ncols1 ncols2 i : nat)
  (rows1 rows2 : list (list cstr)) :
  i < ncols1 →
  i < ncols2 →
  column ncols1 i rows1 = column ncols2 i rows2 →
  infer_rows ncols1 rows1 !! i = infer_rows ncols2 rows2 !! i.
Proof.
  intros Hi1 Hi2 Hcol. rewrite !infer_rows_lookup by assumption.
  rewrite Hcol. reflexivity.
Qed.

Lemma C10_column_noninterference_witness :
  infer_rows 2 [[lit "1"; lit "x"]; [lit "2"]] !! 0 =
  infer_rows 3 [[lit "1"; lit "3.5"]; [lit "2"; lit "7"; lit "zz"]] !! 0.
Proof.
  apply (C10_column_noninterference 2 3 0); [lia | lia | reflexivity].
Defined.

(** ** The line buffer *)

Lemma rd_app_r (pre l : list ascii) (k : nat) :
  rd (pre ++ l) (length pre + k) = rd l k.
Proof. unfold rd. rewrite lookup_app_r by lia. do 3 f_equal. lia. Qed.

Lemma rd_app_0 (pre l : list ascii) : rd (pre ++ l) (length pre) = peek l.
Proof.
  rewrite <- (Nat.add_0_r (length pre)), rd_app_r. destruct l; reflexivity.
Qed.

Lemma rd_nonzero_lt (buf : list ascii) (p : nat) :
  rd buf p ≠ NUL → p < length buf.
Proof.
  unfold rd. intros H. destruct (buf !! p) eqn:E.
  - eapply lookup_lt_Some, E.
  - contradiction H. reflexivity.
Qed.

Lemma wr_app_0 (pre l : list ascii) (c x : ascii) :
  wr (pre ++ c :: l) (length pre) x = pre ++ x :: l.
Proof.
  unfold wr. rewrite <- (Nat.add_0_r (length pre)), insert_app_r. reflexivity.
Qed.

Lemma length_wr (buf : list ascii) (p : nat) (c : ascii) :
  length (wr buf p c) = length buf.
Proof. apply length_insert. Qed.

Lemma until_nul_app (seg rest : list ascii) :
  Forall (λ c, c ≠ NUL) seg → until_nul (seg ++ NUL :: rest) = seg.
Proof.
  induction 1 as [|c seg Hc _ IH]; simpl; [reflexivity|].
  apply Ascii.eqb_neq in Hc. rewrite Hc, IH. reflexivity.
Qed.

Lemma cstr_at_app (pre seg rest : list ascii) :
  Forall (λ c, c ≠ NUL) seg →
  cstr_at (pre ++ seg ++ NUL :: rest) (length pre) = seg.
Proof.
  intros H. unfold cstr_at. rewrite drop_app_length. apply until_nul_app, H.
Qed.

(** ** Splitting on the delimiter *)

Lemma split_on_nonempty (d : ascii) (l : list ascii) : split_on d l ≠ [].
Proof.
  destruct l as [|c l]; simpl; [discriminate|].
  destruct (Ascii.eqb c d); [discriminate|].
  destruct (split_on d l); discriminate.
Qed.

Lemma split_on_segment (d : ascii) (seg rest : list ascii) :
  Forall (λ c, c ≠ d) seg →
  split_on d (seg ++ d :: rest) = seg :: split_on d rest.
Proof.
  induction 1 as [|c seg Hc _ IH]; simpl.
  - rewrite Ascii.eqb_refl. reflexivity.
  - apply Ascii.eqb_neq in Hc. rewrite Hc, IH. reflexivity.
Qed.

Lemma split_on_single (d : ascii) (seg : list ascii) :
  Forall (λ c, c ≠ d) seg → split_on d seg = [seg].
Proof.
  induction 1 as [|c seg Hc _ IH]; simpl; [reflexivity|].
  apply Ascii.eqb_neq in Hc. rewrite Hc, IH. reflexivity.
Qed.

Lemma split_on_snoc (d : ascii) (l : list ascii) :
  split_on d (l ++ [d]) = split_on d l ++ [[]].
Proof.
  induction l as [|c l IH]; simpl.
  - rewrite Ascii.eqb_refl. reflexivity.
  - destruct (Ascii.eqb c d); rewrite IH; [reflexivity|].
    pose proof (split_on_nonempty d l) as Hne.
    destruct (split_on d l); [contradiction | reflexivity].
Qed.

Lemma drop_empty_last_cons (x : cstr) (fs : list cstr) :
  fs ≠ [] → drop_empty_last (x :: fs) = x :: drop_empty_last fs.
Proof.
  destruct fs as [|y fs]; [contradiction|]. intros _.
  unfold drop_empty_last. change (last (x :: y :: fs)) with (last (y :: fs)).
  destruct (last (y :: fs)) as [[|]|]; try reflexivity.
  simpl. rewrite Nat.sub_0_r. reflexivity.
Qed.

Lemma drop_empty_last_snoc (fs : list cstr) :
  drop_empty_last (fs ++ [[]]) = fs.
Proof.
  unfold drop_empty_last. rewrite last_snoc, length_app. simpl.
  replace (length fs + 1 - 1) with (length fs) by lia.
  apply take_app_length.
Qed.

(** The last substring is empty exactly for the empty line and for a line
    that ends in the delimiter. *)
Lemma split_on_last_nonempty (d : ascii) (l : list ascii) :
  l ≠ [] → last l ≠ Some d →
  drop_empty_last (split_on d l) = split_on d l.
Proof.
  induction l as [|c l IH]; [contradiction|]. intros _ Hlast.
  destruct l as [|c' l].
  - simpl in *. destruct (Ascii.eqb c d) eqn:E; [|reflexivity].
    apply Ascii.eqb_eq in E. congruence.
  - change (last (c :: c' :: l)) with (last (c' :: l)) in Hlast.
    specialize (IH ltac:(discriminate) Hlast).
    pose proof (split_on_nonempty d (c' :: l)) as Hne.
    change (split_on d (c :: c' :: l)) with
      (if Ascii.eqb c d then [] :: split_on d (c' :: l)
       else match split_on d (c' :: l) with
            | f :: fs => (c :: f) :: fs
            | [] => [[c]]
            end).
    destruct (Ascii.eqb c d).
    + rewrite drop_empty_last_cons, IH by assumption. reflexivity.
    + destruct (split_on d (c' :: l)) as [|f fs]; [contradiction|].
      destruct fs as [|g fs].
      * unfold drop_empty_last. reflexivity.
      * rewrite drop_empty_last_cons by discriminate.
        rewrite drop_empty_last_cons in IH by discriminate.
        injection IH as ->. reflexivity.
Qed.

Lemma expected_segment (d : ascii) (seg rest : list ascii) :
  Forall (λ c, c ≠ d) seg →
  drop_empty_last (split_on d (seg ++ d :: rest)) =
    seg :: drop_empty_last (split_on d rest).
Proof.
  intros H. rewrite split_on_segment by assumption.
  apply drop_empty_last_cons, split_on_nonempty.
Qed.

Lemma expected_single (d : ascii) (seg : list ascii) :
  seg ≠ [] → Forall (λ c, c ≠ d) seg →
  drop_empty_last (split_on d seg) = [seg].
Proof.
  intros Hne H. rewrite split_on_single by assumption.
  destruct seg; [contradiction | reflexivity].
Qed.

(** A line is a segment without the delimiter, followed by nothing or by
    a delimiter and the rest. *)
Lemma first_segment (d : ascii) (l : list ascii) :
  ∃ seg rest,
    l = seg ++ rest ∧ Forall (λ c, c ≠ d) seg ∧
    (rest = [] ∨ ∃ rest', rest = d :: rest').
Proof.
  induction l as [|c l (seg & rest & -> & Hseg & Hrest)].
  - exists [], []. split; [reflexivity|]. split; [constructor | left; reflexivity].
  - destruct (Ascii.eqb c d) eqn:E.
    + apply Ascii.eqb_eq in E as ->.
      exists [], (d :: seg ++ rest). split; [reflexivity|].
      split; [constructor | right; eexists; reflexivity].
    + apply Ascii.eqb_neq in E.
      exists (c :: seg), rest. split; [reflexivity|].
      split; [constructor; assumption | exact Hrest].
Qed.

(** ** The splitter on lines without quotes *)

Lemma skip_to_delim_segment (d : ascii) (seg : list ascii) :
  Forall (λ c, c ≠ NUL ∧ c ≠ d) seg →
  ∀ pre post fuel,
    peek post = NUL ∨ peek post = d →
    length seg < fuel →
    skip_to_delim fuel (pre ++ seg ++ post) d (length pre)
      = Some (length pre + length seg).
Proof.
  induction 1 as [|c seg [Hc Hd] _ IH]; intros pre post fuel Hpost Hfuel;
    (destruct fuel as [|fuel]; [simpl in Hfuel; lia|]); simpl.
  - rewrite rd_app_0, Nat.add_0_r.
    destruct Hpost as [-> | ->].
    + reflexivity.
    + rewrite Ascii.eqb_refl, andb_false_r. reflexivity.
  - rewrite rd_app_0. simpl.
    apply Ascii.eqb_neq in Hc, Hd. rewrite Hc, Hd. simpl.
    replace (pre ++ c :: seg ++ post) with ((pre ++ [c]) ++ seg ++ post)
      by (rewrite <- app_assoc; reflexivity).
    replace (length pre + 1) with (length (pre ++ [c]))
      by (rewrite length_app; reflexivity).
    rewrite IH by (simpl in Hfuel; first [assumption | lia]).
    rewrite length_app. simpl. f_equal. lia.
Qed.

Lemma split_loop_stop (fuel max_cells : nat) (d : ascii) (buf : list ascii)
  (p count : nat) (cells : list nat) :
  rd buf p = NUL ∨ max_cells ≤ count →
  split_loop (S fuel) max_cells d buf p count cells = Some (count, cells, buf).
Proof.
  intros [H | H]; simpl.
  - rewrite H. reflexivity.
  - apply Nat.ltb_ge in H. rewrite H, andb_false_r. reflexivity.
Qed.

(** On a line without quotes the loop stores, for each substring between
    delimiters, the offset where it starts, and writes the terminator over
    the delimiter that ends it, until the line or the room for cells is
    exhausted; nothing is stored for an empty rest after the last
    delimiter. *)
Lemma split_loop_unquoted (max_cells : nat) (d : ascii) :
  d ≠ NUL →
  ∀ fuel line pre count cells,
    Forall (λ c, c ≠ NUL ∧ c ≠ DQUOTE) line →
    length line + 2 ≤ fuel →
    ∃ offs tl,
      split_loop fuel max_cells d (pre ++ line ++ [NUL]) (length pre)
        count cells
        = Some (count + length offs, cells ++ offs, pre ++ tl) ∧
      map (cstr_at (pre ++ tl)) offs
        = take (max_cells - count) (drop_empty_last (split_on d line)).
Proof.
  intros Hd. induction fuel as [|fuel IH];
    intros line pre count cells Hline Hfuel; [lia|].
  destruct line as [|c l].
  { exists [], [NUL]. rewrite split_loop_stop
      by (left; rewrite rd_app_0; reflexivity).
    rewrite Nat.add_0_r, app_nil_r.
    change (drop_empty_last (split_on d [])) with (@nil cstr).
    rewrite take_nil. split; reflexivity. }
  destruct (decide (max_cells ≤ count)) as [Hfull | Hroom].
  { exists [], ((c :: l) ++ [NUL]). rewrite split_loop_stop by (right; exact Hfull).
    rewrite Nat.add_0_r, app_nil_r.
    replace (max_cells - count) with 0 by lia. split; reflexivity. }
  pose proof (Forall_inv Hline) as [Hc Hq].
  assert (split_loop (S fuel) max_cells d (pre ++ (c :: l) ++ [NUL])
            (length pre) count cells
          = p ← skip_to_delim fuel (pre ++ (c :: l) ++ [NUL]) d (length pre);
            if Ascii.eqb (rd (pre ++ (c :: l) ++ [NUL]) p) d then
              split_loop fuel max_cells d
                (wr (pre ++ (c :: l) ++ [NUL]) p NUL) (p + 1)
                (count + 1) (cells ++ [length pre])
            else
              split_loop fuel max_cells d (pre ++ (c :: l) ++ [NUL]) p
                (count + 1) (cells ++ [length pre])) as ->.
  { cbn [split_loop]. rewrite rd_app_0. cbn [peek app].
    apply Ascii.eqb_neq in Hc, Hq. rewrite Hc, Hq.
    assert ((count <? max_cells) = true) as -> by (apply Nat.ltb_lt; lia).
    reflexivity. }
  destruct (first_segment d (c :: l)) as (seg & rest & Heq & Hseg & Hrest).
  rewrite Heq in Hline |- *. apply Forall_app in Hline as [Hline_seg Hline_rest].
  assert (Forall (λ c, c ≠ NUL ∧ c ≠ d) seg) as Hseg'.
  { apply Forall_and. split; [|exact Hseg].
    eapply Forall_impl; [exact Hline_seg|]. intros ? [? _]. assumption. }
  assert (Forall (λ c, c ≠ NUL) seg) as Hseg_nul.
  { eapply Forall_impl; [exact Hline_seg|]. intros ? [? _]. assumption. }
  assert (length (c :: l) = length seg + length rest) as Hlen
    by (rewrite Heq, length_app; reflexivity).
  simpl in Hfuel, Hlen.
  assert (max_cells - count = S (max_cells - (count + 1))) as Htake by lia.
  destruct Hrest as [-> | [rest' ->]].
  - (* the segment runs to the end of the line *)
    rewrite app_nil_r in *.
    rewrite (skip_to_delim_segment d seg Hseg' pre [NUL] fuel)
      by (simpl in *; first [left; reflexivity | lia]).
    cbn [mbind option_bind].
    replace (pre ++ seg ++ [NUL]) with ((pre ++ seg) ++ [NUL])
      by (rewrite <- app_assoc; reflexivity).
    replace (length pre + length seg) with (length (pre ++ seg))
      by (rewrite length_app; reflexivity).
    rewrite rd_app_0. cbn [peek].
    assert (Ascii.eqb NUL d = false) as ->
      by (apply Ascii.eqb_neq; congruence).
    destruct fuel as [|fuel]; [simpl in *; lia|].
    rewrite split_loop_stop by (left; rewrite rd_app_0; reflexivity).
    exists [length pre], (seg ++ [NUL]).
    rewrite <- !app_assoc. split; [reflexivity|].
    rewrite expected_single by (first [assumption | rewrite <- Heq; discriminate]).
    rewrite Htake. cbn [take map]. rewrite take_nil.
    rewrite cstr_at_app by assumption. reflexivity.
  - (* the segment ends at a delimiter *)
    replace (pre ++ (seg ++ d :: rest') ++ [NUL])
      with (pre ++ seg ++ (d :: rest') ++ [NUL])
      by (rewrite <- !app_assoc; reflexivity).
    rewrite (skip_to_delim_segment d seg Hseg' pre ((d :: rest') ++ [NUL]) fuel)
      by (simpl in *; first [right; reflexivity | lia]).
    cbn [mbind option_bind].
    replace (pre ++ seg ++ (d :: rest') ++ [NUL])
      with ((pre ++ seg) ++ d :: rest' ++ [NUL])
      by (rewrite <- !app_assoc; reflexivity).
    replace (length pre + length seg) with (length (pre ++ seg))
      by (rewrite length_app; reflexivity).
    rewrite rd_app_0. cbn [peek]. rewrite Ascii.eqb_refl, wr_app_0.
    replace ((pre ++ seg) ++ NUL :: rest' ++ [NUL])
      with ((pre ++ seg ++ [NUL]) ++ rest' ++ [NUL])
      by (rewrite <- !app_assoc; reflexivity).
    replace (length (pre ++ seg) + 1) with (length (pre ++ seg ++ [NUL]))
      by (rewrite !length_app; simpl; lia).
    apply Forall_inv_tail in Hline_rest.
    destruct (IH rest' (pre ++ seg ++ [NUL]) (count + 1)
                (cells ++ [length pre]) Hline_rest)
      as (offs & tl & Hrun & Hfields).
    { rewrite length_cons in Hlen. lia. }
    rewrite Hrun. exists (length pre :: offs), (seg ++ [NUL] ++ tl).
    rewrite <- !app_assoc in *. split.
    + simpl. do 3 f_equal. lia.
    + rewrite expected_segment, Htake by assumption. cbn [take map].
      f_equal; [|exact Hfields].
      apply cstr_at_app. assumption.
Qed.

(** ** Termination of the splitter on every buffer *)

Lemma unquote_loop_total (fuel : nat) :
  ∀ buf p w,
    p ≤ length buf →
    length buf + 1 ≤ fuel + p →
    ∃ buf' p' w',
      unquote_loop fuel buf p w = Some (buf', p', w') ∧
      length buf' = length buf ∧ p ≤ p' ∧ p' ≤ length buf.
Proof.
  induction fuel as [|fuel IH]; intros buf p w Hp Hfuel; [lia|].
  simpl. destruct (Ascii.eqb (rd buf p) DQUOTE) eqn:Hq.
  - assert (p < length buf) as Hlt.
    { apply rd_nonzero_lt. apply Ascii.eqb_eq in Hq. rewrite Hq.
      discriminate. }
    destruct (Ascii.eqb (rd buf (p + 1)) DQUOTE) eqn:Hq'.
    + assert (p + 1 < length buf) as Hlt'.
      { apply rd_nonzero_lt. apply Ascii.eqb_eq in Hq'. rewrite Hq'.
        discriminate. }
      destruct (IH (wr buf w DQUOTE) (p + 2) (w + 1))
        as (buf' & p' & w' & -> & Hlen & Hp1 & Hp2);
        try (rewrite length_wr; lia).
      exists buf', p', w'. rewrite length_wr in Hlen, Hp2.
      split; [reflexivity|]. split; [assumption | lia].
    + exists buf, (p + 1), w. split; [reflexivity|]. split; [reflexivity | lia].
  - destruct (Ascii.eqb (rd buf p) NUL) eqn:Hn.
    + exists buf, p, w. split; [reflexivity|]. split; [reflexivity | lia].
    + assert (p < length buf) as Hlt.
      { apply rd_nonzero_lt. apply Ascii.eqb_neq, Hn. }
      destruct (IH (wr buf w (rd buf p)) (p + 1) (w + 1))
        as (buf' & p' & w' & -> & Hlen & Hp1 & Hp2);
        try (rewrite length_wr; lia).
      exists buf', p', w'. rewrite length_wr in Hlen, Hp2.
      split; [reflexivity|]. split; [assumption | lia].
Qed.

Lemma skip_to_delim_total (d : ascii) (buf : list ascii) (fuel : nat) :
  ∀ p,
    p ≤ length buf →
    length buf + 1 ≤ fuel + p →
    ∃ p',
      skip_to_delim fuel buf d p = Some p' ∧ p ≤ p' ∧ p' ≤ length buf ∧
      (rd buf p' = NUL ∨ rd buf p' = d).
Proof.
  induction fuel as [|fuel IH]; intros p Hp Hfuel; [lia|].
  simpl. destruct (Ascii.eqb (rd buf p) NUL) eqn:Hn; simpl.
  - exists p. apply Ascii.eqb_eq in Hn. repeat split; auto.
  - assert (p < length buf) as Hlt.
    { apply rd_nonzero_lt. apply Ascii.eqb_neq, Hn. }
    destruct (Ascii.eqb (rd buf p) d) eqn:Hd; simpl.
    + exists p. apply Ascii.eqb_eq in Hd. repeat split; auto.
    + destruct (IH (p + 1)) as (p' & -> & Hp1 & Hp2 & Hstop); try lia.
      exists p'. repeat split; first [assumption | lia].
Qed.

(** The splitter returns on every buffer; it never lowers the count, and
    the count stays the number of cells stored. *)
Lemma split_loop_total (max_cells : nat) (d : ascii) (fuel : nat) :
  ∀ buf p count cells,
    1 ≤ fuel →
    length buf + 2 ≤ fuel + p →
    ∃ count' cells' buf',
      split_loop fuel max_cells d buf p count cells
        = Some (count', cells', buf') ∧
      count ≤ count' ∧ (count = length cells → count' = length cells') ∧
      (rd buf p ≠ NUL → count < max_cells → count < count').
Proof.
  induction fuel as [|fuel IH]; intros buf p count cells Hpos Hfuel; [lia|].
  cbn [split_loop].
  destruct (negb (Ascii.eqb (rd buf p) NUL) && (count <? max_cells)) eqn:Hgo.
  2: { exists count, cells, buf. split; [reflexivity|]. split; [lia|].
       split; [auto|]. intros Hn Hroom.
       apply Ascii.eqb_neq in Hn. apply Nat.ltb_lt in Hroom.
       rewrite Hn, Hroom in Hgo. discriminate. }
  apply andb_true_iff in Hgo as [Hn _]. apply negb_true_iff in Hn.
  assert (p < length buf) as Hlt.
  { apply rd_nonzero_lt. apply Ascii.eqb_neq, Hn. }
  destruct (Ascii.eqb (rd buf p) DQUOTE).
  - destruct (unquote_loop_total fuel buf (p + 1) p)
      as (buf1 & p1 & w1 & -> & Hlen1 & Hp1 & Hp1'); try lia.
    cbn [mbind option_bind].
    destruct (skip_to_delim_total d (wr buf1 w1 NUL) fuel p1)
      as (p2 & -> & Hp2 & _); try (rewrite length_wr; lia).
    cbn [mbind option_bind].
    match goal with
    | |- context [split_loop fuel max_cells d ?b ?q ?n ?cs] =>
        destruct (IH b q n cs)
          as (count' & cells' & buf' & -> & Hc & Hcells & _)
    end.
    + lia.
    + rewrite length_wr, Hlen1.
      destruct (Ascii.eqb (rd (wr buf1 w1 NUL) p2) d); lia.
    + exists count', cells', buf'. split; [reflexivity|]. split; [lia|].
      split; [|lia].
      intros Heq. apply Hcells. rewrite length_app. simpl. lia.
  - destruct (skip_to_delim_total d buf fuel p)
      as (p2 & -> & Hp2 & _ & Hstop); try lia.
    cbn [mbind option_bind].
    destruct (Ascii.eqb (rd buf p2) d) eqn:Hd.
    + destruct (IH (wr buf p2 NUL) (p2 + 1) (count + 1) (cells ++ [p]))
        as (count' & cells' & buf' & -> & Hc & Hcells & _);
        try (rewrite ?length_wr; lia).
      exists count', cells', buf'. split; [reflexivity|]. split; [lia|].
      split; [|lia].
      intros Heq. apply Hcells. rewrite length_app. simpl. lia.
    + assert (p2 ≠ p) as Hne.
      { intros ->. apply Ascii.eqb_neq in Hn, Hd. destruct Hstop; contradiction. }
      destruct (IH buf p2 (count + 1) (cells ++ [p]))
        as (count' & cells' & buf' & -> & Hc & Hcells & _); try lia.
      exists count', cells', buf'. split; [reflexivity|]. split; [lia|].
      split; [|lia].
      intros Heq. apply Hcells. rewrite length_app. simpl. lia.
Qed.

(** ** The splitter on a line *)

Lemma clean_line (line : cstr) :
  nul_free line = true → quote_free line = true →
  Forall (λ c, c ≠ NUL ∧ c ≠ DQUOTE) line.
Proof.
  induction line as [|c line IH]; simpl; [constructor|].
  intros Hn Hq.
  apply andb_true_iff in Hn as [Hc Hn], Hq as [Hc' Hq].
  apply negb_true_iff, Ascii.eqb_neq in Hc, Hc'.
  constructor; [split; assumption | apply IH; assumption].
Qed.

Lemma length_drop_empty_last (fs : list cstr) :
  length (drop_empty_last fs) ≤ length fs.
Proof.
  unfold drop_empty_last. destruct (last fs) as [[|]|]; try lia.
  rewrite length_take. lia.
Qed.

(** On a line without quotes the splitter returns the substrings between
    delimiters, without an empty last one, cut at [max_cells]. *)
Lemma split_csv_line_unquoted (line : cstr) (max_cells : nat) (d : ascii) :
  d ≠ NUL → nul_free line = true → quote_free line = true →
  split_csv_line line max_cells d =
    let fs := take max_cells (drop_empty_last (split_on d line)) in
    Some (length fs, fs).
Proof.
  intros Hd Hn Hq. unfold split_csv_line.
  destruct (split_loop_unquoted max_cells d Hd (length (line ++ [NUL]) + 2)
              line [] 0 [] (clean_line line Hn Hq))
    as (offs & tl & Hrun & Hfields).
  { rewrite length_app. simpl. lia. }
  simpl in Hrun, Hfields. rewrite Nat.sub_0_r in Hfields.
  rewrite Hrun. cbv zeta. rewrite <- Hfields, length_map. reflexivity.
Qed.

Lemma split_csv_line_total (line : cstr) (max_cells : nat) (d : ascii) :
  ∃ n fs,
    split_csv_line line max_cells d = Some (n, fs) ∧ n = length fs ∧
    (peek line ≠ NUL → 1 ≤ max_cells → 1 ≤ n).
Proof.
  unfold split_csv_line.
  destruct (split_loop_total max_cells d (length (line ++ [NUL]) + 2)
              (line ++ [NUL]) 0 0 [])
    as (n & cells & buf & -> & _ & Hlen & Hfirst); try lia.
  exists n, (map (cstr_at buf) cells). split; [reflexivity|]. split.
  - rewrite length_map. apply Hlen. reflexivity.
  - intros Hpeek Hmax. apply Hfirst; [|lia].
    destruct line; [contradiction Hpeek; reflexivity | exact Hpeek].
Qed.

(** ** The record splitter *)

(** C1: on the line that holds a quoted field with content a, doubled
    quote, b, followed by the delimiter and c, the splitter returns two
    cells, but the first one is the content without its first character:
    the copy loop writes the content from the offset of the opening quote,
    and the cell pointer is set one past that offset.  The expected fields,
    the content with one literal quote and then c, are not what is
    returned. *)
Theorem C1_doubled_quote_loses_first_char :
  let line :=
    [DQUOTE] ++ lit "a" ++ [DQUOTE; DQUOTE] ++ lit "b" ++ [DQUOTE] ++ lit ",c" in
  split_csv_line line MAX_COLS "," = Some (2, [[DQUOTE] ++ lit "b"; lit "c"]) ∧
  split_csv_line line MAX_COLS ","
    ≠ Some (2, [lit "a" ++ [DQUOTE] ++ lit "b"; lit "c"]).
Proof.
  split; [vm_compute; reflexivity|].
  vm_compute. discriminate.
Qed.

(** C4: on the line that opens a quote before abc,def and never closes it,
    the splitter returns one cell and raises nothing, but the cell is
    bc,def: the partial content is kept without its first character, for
    the same reason as in C1. *)
Theorem C4_unterminated_quote_loses_first_char :
  let line := [DQUOTE] ++ lit "abc,def" in
  split_csv_line line MAX_COLS "," = Some (1, [lit "bc,def"]) ∧
  split_csv_line line MAX_COLS "," ≠ Some (1, [lit "abc,def"]).
Proof.
  split; [vm_compute; reflexivity|].
  vm_compute. discriminate.
Qed.

(** C3, as stated, fails on a line that ends in the delimiter: the line a
    followed by a comma splits on the comma into the substrings a and the
    empty string, and the splitter returns the one field a. *)
Lemma C3_trailing_delimiter_counterexample :
  nul_free (lit "a,") = true ∧ quote_free (lit "a,") = true ∧
  length (split_on "," (lit "a,")) ≤ 8 ∧
  split_on "," (lit "a,") = [lit "a"; lit ""] ∧
  split_csv_line (lit "a,") 8 "," = Some (1, [lit "a"]) ∧
  snd <$> split_csv_line (lit "a,") 8 "," ≠ Some (split_on "," (lit "a,")).
Proof.
  repeat split; try reflexivity.
  - vm_compute. lia.
  - vm_compute. discriminate.
Qed.

(** C3, amended: for every line without quote characters, a delimiter that
    is not the terminator and room for all substrings, the splitter returns
    the substrings produced by splitting the line on every occurrence of
    the delimiter, empty ones included, except that an empty last
    substring (the empty line, or the text after a trailing delimiter) is
    not returned; on a non-empty line that does not end in the delimiter
    these are exactly the substrings. *)
Theorem C3_unquoted_split (line : cstr) (d : ascii) (max_cells : nat) :
  nul_free line = true →
  quote_free line = true →
  d ≠ NUL →
  length (split_on d line) ≤ max_cells →
  split_csv_line line max_cells d =
    Some (length (drop_empty_last (split_on d line)),
          drop_empty_last (split_on d line)) ∧
  (line ≠ [] → last line ≠ Some d →
   split_csv_line line max_cells d =
     Some (length (split_on d line), split_on d line)).
Proof.
  intros Hn Hq Hd Hmax.
  assert (split_csv_line line max_cells d =
            Some (length (drop_empty_last (split_on d line)),
                  drop_empty_last (split_on d line))) as Hsplit.
  { rewrite split_csv_line_unquoted by assumption. cbv zeta.
    rewrite take_ge; [reflexivity|].
    pose proof (length_drop_empty_last (split_on d line)). lia. }
  split; [exact Hsplit|].
  intros Hne Hlast. rewrite Hsplit, split_on_last_nonempty by assumption.
  reflexivity.
Qed.

Lemma C3_unquoted_split_witness :
  split_csv_line (lit "a,,b c,") 8 ","
    = Some (3, [lit "a"; lit ""; lit "b c"]) ∧
  split_csv_line (lit "x;y") 2 ";" = Some (2, [lit "x"; lit "y"]).
Proof.
  split.
  - apply (C3_unquoted_split (lit "a,,b c,") "," 8);
      solve [reflexivity | discriminate | vm_compute; lia].
  - apply (C3_unquoted_split (lit "x;y") ";" 2);
      solve [reflexivity | discriminate | vm_compute; lia].
Defined.

(** C9, as stated, fails where the text before the trailing delimiter is
    empty or itself ends in the delimiter: a followed by two commas yields
    two fields, a followed by one comma yields one, and a lone comma yields
    one field where the empty line yields none. *)
Lemma C9_double_trailing_delimiter_counterexample :
  quote_free (lit "a,,") = true ∧
  fst <$> split_csv_line (lit "a,,") 4 "," = Some 2 ∧
  fst <$> split_csv_line (lit "a,") 4 "," = Some 1 ∧
  fst <$> split_csv_line (lit "a,,") 4 ","
    ≠ fst <$> split_csv_line (lit "a,") 4 ",".
Proof.
  repeat split; try reflexivity.
  vm_compute. discriminate.
Qed.

(** C9, amended: for every bound of at least one cell and every delimiter
    other than the terminator, the empty line yields no field, every
    non-empty line yields at least one, and a line without quotes that ends
    in the delimiter yields the same fields (so as many) as the line
    without that delimiter, provided what remains is not empty and does not
    itself end in the delimiter. *)
Theorem C9_no_field_after_final_delimiter (max_cells : nat) (d : ascii) :
  1 ≤ max_cells →
  d ≠ NUL →
  split_csv_line [] max_cells d = Some (0, []) ∧
  (∀ line,
     line ≠ [] → nul_free line = true →
     ∃ n fs, split_csv_line line max_cells d = Some (n, fs) ∧
             n = length fs ∧ 1 ≤ n) ∧
  (∀ line,
     line ≠ [] → last line ≠ Some d →
     nul_free line = true → quote_free (line ++ [d]) = true →
     ∃ n fs, split_csv_line line max_cells d = Some (n, fs) ∧
             split_csv_line (line ++ [d]) max_cells d = Some (n, fs)).
Proof.
  intros Hmax Hd. split; [|split].
  - destruct max_cells; reflexivity.
  - intros line Hne Hn.
    destruct (split_csv_line_total line max_cells d)
      as (n & fs & Hsplit & Hlen & Hfirst).
    exists n, fs. split; [exact Hsplit|]. split; [exact Hlen|].
    apply Hfirst; [|exact Hmax].
    destruct line as [|c line]; [contradiction|].
    simpl in Hn |- *. apply andb_true_iff in Hn as [Hc _].
    apply negb_true_iff, Ascii.eqb_neq in Hc. exact Hc.
  - intros line Hne Hlast Hn Hq.
    unfold quote_free in Hq. rewrite forallb_app in Hq.
    apply andb_true_iff in Hq as [Hq Hqd].
    assert (nul_free (line ++ [d]) = true) as Hn'.
    { unfold nul_free in *. rewrite forallb_app, Hn. simpl.
      apply Ascii.eqb_neq in Hd. rewrite Hd. reflexivity. }
    assert (quote_free (line ++ [d]) = true) as Hq'.
    { unfold quote_free. rewrite forallb_app, Hq, Hqd. reflexivity. }
    rewrite (split_csv_line_unquoted line) by assumption.
    rewrite (split_csv_line_unquoted (line ++ [d])) by assumption.
    rewrite split_on_snoc, drop_empty_last_snoc.
    rewrite split_on_last_nonempty by assumption.
    eexists _, _. split; reflexivity.
Qed.

Lemma C9_no_field_after_final_delimiter_witness :
  split_csv_line [] 4 "," = Some (0, []) ∧
  (∃ n fs, split_csv_line ([DQUOTE] ++ lit "q") 4 "," = Some (n, fs) ∧
           n = length fs ∧ 1 ≤ n) ∧
  split_csv_line (lit "a,b") 4 "," = Some (2, [lit "a"; lit "b"]) ∧
  split_csv_line (lit "a,b,") 4 "," = Some (2, [lit "a"; lit "b"]).
Proof.
  destruct (C9_no_field_after_final_delimiter 4 ",") as (H0 & H1 & H2);
    [lia | discriminate |].
  split; [exact H0|]. split.
  - apply (H1 ([DQUOTE] ++ lit "q")); [discriminate | reflexivity].
  - destruct (H2 (lit "a,b")) as (n & fs & E1 & E2);
      try solve [discriminate | reflexivity].
    vm_compute in E1. injection E1 as <- <-.
    split; [reflexivity | exact E2].
Defined.

(** ** The scan of a file *)

(** The loop over the lines is the fold of [row_step] over the cells the
    splitter returns for each line. *)
Lemma scan_lines_rows (ncols : nat) (lines : list cstr) :
  ∀ types,
    ∃ rows,
      Forall2
        (λ line cells,
           split_csv_line line MAX_COLS "," = Some (length cells, cells))
        lines rows ∧
      scan_lines ncols types lines = Some (scan_rows ncols types rows).
Proof.
  induction lines as [|line lines IH]; intros types.
  - exists []. split; [constructor | reflexivity].
  - destruct (split_csv_line_total line MAX_COLS ",")
      as (n & fs & Hsplit & -> & _).
    destruct (IH (row_step ncols types fs)) as (rows & Hrows & Hscan).
    exists (fs :: rows). split; [constructor; assumption|].
    cbn [scan_lines]. rewrite Hsplit. exact Hscan.
Qed.

(** The scan returns for every header and every list of data lines. *)
Lemma infer_file_total (header : cstr) (data : list cstr) :
  ∃ types, infer_file header data = Some types.
Proof.
  unfold infer_file.
  destruct (split_csv_line_total header MAX_COLS ",")
    as (ncols & fs & -> & _ & _).
  destruct (ncols =? 0); [eexists; reflexivity|].
  destruct (scan_lines_rows ncols data (init_types ncols))
    as (rows & _ & ->).
  eexists. reflexivity.
Qed.

(** The two scenarios of the specification. *)
Example infer_file_scores :
  infer_file (lit "id,name,score") [lit "1,Alice,9.5"; lit "2,Bob,10"]
    = Some [TYPE_INTEGER; TYPE_TEXT; TYPE_REAL].
Proof. vm_compute. reflexivity. Qed.

Example infer_file_empty_row :
  infer_file (lit "a,b") [lit "1,2"; lit ","; lit "3,x"]
    = Some [TYPE_INTEGER; TYPE_TEXT].
Proof. vm_compute. reflexivity. Qed.

(** * Further properties *)

(** ** The inferencer as a least upper bound *)

Lemma observe_join (t : ColType) (cell : cstr) :
  observe t cell = join t (classify cell).
Proof.
  unfold observe, classify.
  destruct (Ascii.eqb (peek cell) NUL); [destruct t; reflexivity|].
  destruct t, (is_integer cell), (is_real cell); reflexivity.
Qed.

Lemma join_comm_r (t a b : ColType) : join (join t a) b = join (join t b) a.
Proof. destruct t, a, b; reflexivity. Qed.

Lemma rank_join (a b : ColType) : rank (join a b) = rank a `max` rank b.
Proof. destruct a, b; reflexivity. Qed.

Lemma rank_inj (a b : ColType) : rank a = rank b → a = b.
Proof. destruct a, b; simpl; intros H; first [reflexivity | discriminate H]. Qed.

Lemma observe_all_cons (t : ColType) (v : cstr) (vs : list cstr) :
  observe_all t (v :: vs) = observe_all (observe t v) vs.
Proof. reflexivity. Qed.

Lemma observe_all_permutation (vs vs' : list cstr) :
  vs ≡ₚ vs' → ∀ t, observe_all t vs = observe_all t vs'.
Proof.
  induction 1 as [|v vs vs' _ IH|a b vs|vs1 vs2 vs3 _ IH1 _ IH2]; intros t.
  - reflexivity.
  - rewrite !observe_all_cons. apply IH.
  - rewrite !observe_all_cons, !observe_join. f_equal. apply join_comm_r.
  - rewrite IH1. apply IH2.
Qed.

Lemma foldr_max_start (g : cstr → nat) (vs : list cstr) (a k : nat) :
  foldr (λ v r, g v `max` r) (a `max` k) vs =
    k `max` foldr (λ v r, g v `max` r) a vs.
Proof.
  induction vs as [|w vs IH]; simpl; [lia|]. rewrite IH. lia.
Qed.

(** The rank a column ends with is the largest among the rank it started
    with and the ranks of the evidence it read. *)
Lemma rank_observe_all (vs : list cstr) :
  ∀ t,
    rank (observe_all t vs) =
      foldr (λ v r, rank (classify v) `max` r) (rank t) vs.
Proof.
  induction vs as [|v vs IH]; intros t; [reflexivity|].
  rewrite observe_all_cons, IH, observe_join, rank_join.
  apply foldr_max_start.
Qed.

Lemma length_for_range {A : Type} (body : nat → list A → list A) :
  (∀ i l, length (body i l) = length l) →
  ∀ n l, length (for_range n body l) = length l.
Proof.
  intros Hbody n. induction n as [|n IH]; intros l; [reflexivity|].
  rewrite for_range_S, Hbody. apply IH.
Qed.

Lemma length_observe_row (ncols : nat) (types : list ColType)
  (cells : list cstr) :
  length (observe_row ncols types cells) = length types.
Proof.
  apply length_for_range. intros i l.
  destruct (l !! i); [apply length_insert | reflexivity].
Qed.

Lemma length_finalize (ncols : nat) (types : list ColType) :
  length (finalize ncols types) = length types.
Proof.
  apply length_for_range. intros i l.
  destruct (l !! i) as [[]|]; first [apply length_insert | reflexivity].
Qed.

Lemma length_scan_rows (ncols : nat) (rows : list (list cstr)) :
  ∀ types, length (scan_rows ncols types rows) = length types.
Proof.
  induction rows as [|r rows IH]; intros types; [reflexivity|].
  unfold scan_rows in *. simpl. rewrite IH. apply length_observe_row.
Qed.

Lemma length_infer_rows (ncols : nat) (rows : list (list cstr)) :
  length (infer_rows ncols rows) = ncols.
Proof.
  unfold infer_rows, init_types.
  rewrite length_finalize, length_scan_rows. apply length_replicate.
Qed.

(** Two results for the same number of columns are equal when their
    columns read the same evidence up to order and repetition. *)
Lemma infer_rows_ext (ncols : nat) (rows rows' : list (list cstr)) :
  (∀ i, i < ncols →
        observe_all TYPE_UNKNOWN (column ncols i rows) =
        observe_all TYPE_UNKNOWN (column ncols i rows')) →
  infer_rows ncols rows = infer_rows ncols rows'.
Proof.
  intros H. apply list_eq. intros i.
  destruct (decide (i < ncols)) as [Hi|Hi].
  - rewrite !infer_rows_lookup, H by assumption. reflexivity.
  - rewrite !lookup_ge_None_2 by (rewrite length_infer_rows; lia).
    reflexivity.
Qed.

Lemma foldr_max_le (g : cstr → nat) (vs : list cstr) (a k : nat) :
  foldr (λ v r, g v `max` r) a vs ≤ k ↔ a ≤ k ∧ ∀ v, v ∈ vs → g v ≤ k.
Proof.
  induction vs as [|w vs IH]; simpl.
  - split; [intros H; split; [exact H | intros v Hv; inversion Hv] | tauto].
  - rewrite Nat.max_lub_iff, IH. split.
    + intros (Hw & Ha & Hvs). split; [exact Ha|].
      intros v Hv. apply elem_of_cons in Hv as [-> | Hv]; auto.
    + intros (Ha & Hvs). split; [apply Hvs; left|].
      split; [exact Ha|]. intros v Hv. apply Hvs. right. exact Hv.
Qed.

Lemma foldr_max_ge (g : cstr → nat) (vs : list cstr) (a k : nat) :
  k ≤ foldr (λ v r, g v `max` r) a vs ↔ k ≤ a ∨ ∃ v, v ∈ vs ∧ k ≤ g v.
Proof.
  induction vs as [|w vs IH]; simpl.
  - split; [tauto | intros [H | (v & Hv & _)]; [exact H | inversion Hv]].
  - rewrite Nat.max_le_iff, IH. split.
    + intros [Hw | [Ha | (v & Hv & Hk)]].
      * right. exists w. split; [left | exact Hw].
      * left. exact Ha.
      * right. exists v. split; [right; exact Hv | exact Hk].
    + intros [Ha | (v & Hv & Hk)].
      * right. left. exact Ha.
      * apply elem_of_cons in Hv as [-> | Hv]; [left; exact Hk|].
        right. right. exists v. split; assumption.
Qed.

(** The ranks of the evidence, in terms of the two tests. *)
Lemma classify_ge_1 (v : cstr) : 1 ≤ rank (classify v) ↔ peek v ≠ NUL.
Proof.
  unfold classify. destruct (Ascii.eqb (peek v) NUL) eqn:E.
  - apply Ascii.eqb_eq in E. simpl. split; [lia | contradiction].
  - apply Ascii.eqb_neq in E.
    destruct (is_integer v), (is_real v); simpl; split; auto; lia.
Qed.

Lemma classify_le_1 (v : cstr) :
  rank (classify v) ≤ 1 ↔ (peek v ≠ NUL → is_integer v = true).
Proof.
  unfold classify. destruct (Ascii.eqb (peek v) NUL) eqn:E.
  - apply Ascii.eqb_eq in E. simpl. split; [contradiction | lia].
  - apply Ascii.eqb_neq in E.
    destruct (is_integer v), (is_real v); simpl; split; auto; try lia;
      intros H; specialize (H E); discriminate.
Qed.

Lemma classify_ge_2 (v : cstr) :
  2 ≤ rank (classify v) ↔ peek v ≠ NUL ∧ is_integer v = false.
Proof.
  unfold classify. destruct (Ascii.eqb (peek v) NUL) eqn:E.
  - apply Ascii.eqb_eq in E. simpl. split; [lia | intros [H _]; contradiction].
  - apply Ascii.eqb_neq in E.
    destruct (is_integer v), (is_real v); simpl; split; auto; try lia;
      intros [_ H]; discriminate.
Qed.

Lemma classify_le_2 (v : cstr) :
  rank (classify v) ≤ 2 ↔ (peek v ≠ NUL → is_real v = true).
Proof.
  unfold classify. destruct (Ascii.eqb (peek v) NUL) eqn:E.
  - apply Ascii.eqb_eq in E. simpl. split; [contradiction | lia].
  - apply Ascii.eqb_neq in E.
    destruct (is_integer v) eqn:Hi.
    + rewrite (is_integer_is_real v Hi). simpl. split; auto.
    + destruct (is_real v); simpl; split; auto; try lia.
      intros H; specialize (H E); discriminate.
Qed.

Lemma classify_ge_3 (v : cstr) :
  3 ≤ rank (classify v) ↔ peek v ≠ NUL ∧ is_real v = false.
Proof.
  pose proof (classify_le_2 v) as H.
  destruct (is_real v) eqn:Hr.
  - split; [intros H3; lia | intros [_ Hf]; discriminate].
  - split.
    + intros H3. split; [apply classify_ge_1; lia | reflexivity].
    + intros [Hne _].
      destruct (decide (rank (classify v) ≤ 2)) as [Hle|]; [|lia].
      apply H in Hle; [discriminate | exact Hne].
Qed.

Lemma resolve_rank (t : ColType) :
  rank (resolve t) = if rank t =? 0 then 3 else rank t.
Proof. destruct t; reflexivity. Qed.

(** X1: which type is reported for a column, in terms of the values it
    read.  Integer: some value is not empty and every value that is not
    empty passes the integer test.  Real: every value that is not empty
    passes the real test and one of them fails the integer test.  Text:
    every value is empty, or some value that is not empty fails the real
    test. *)
Theorem reported_type_characterised (ncols i : nat) (rows : list (list cstr)) :
  i < ncols →
  (infer_rows ncols rows !! i = Some TYPE_INTEGER ↔
     (∃ v, v ∈ column ncols i rows ∧ peek v ≠ NUL) ∧
     (∀ v, v ∈ column ncols i rows → peek v ≠ NUL → is_integer v = true)) ∧
  (infer_rows ncols rows !! i = Some TYPE_REAL ↔
     (∃ v, v ∈ column ncols i rows ∧ peek v ≠ NUL ∧ is_integer v = false) ∧
     (∀ v, v ∈ column ncols i rows → peek v ≠ NUL → is_real v = true)) ∧
  (infer_rows ncols rows !! i = Some TYPE_TEXT ↔
     (∀ v, v ∈ column ncols i rows → peek v = NUL) ∨
     (∃ v, v ∈ column ncols i rows ∧ peek v ≠ NUL ∧ is_real v = false)).
Proof.
  intros Hi. rewrite infer_rows_lookup by assumption.
  set (col := column ncols i rows).
  set (f := λ (v : cstr) (r : nat), rank (classify v) `max` r).
  assert (∀ t, Some (resolve (observe_all TYPE_UNKNOWN col)) = Some t ↔
               (if foldr f 0 col =? 0 then 3 else foldr f 0 col) = rank t)
    as Hrank.
  { intros t. pose proof (rank_observe_all col TYPE_UNKNOWN) as Hr.
    change (rank TYPE_UNKNOWN) with 0 in Hr. fold f in Hr.
    rewrite <- Hr, <- resolve_rank.
    split; [intros [= <-]; reflexivity | intros H; f_equal; apply rank_inj, H]. }
  pose proof (foldr_max_le (λ v, rank (classify v)) col 0) as Hle.
  pose proof (foldr_max_ge (λ v, rank (classify v)) col 0) as Hge.
  cbv beta in Hle, Hge. fold f in Hle, Hge.
  split; [|split]; rewrite Hrank; clear Hrank; simpl.
  - split.
    + intros H. destruct (foldr f 0 col =? 0) eqn:E; [discriminate|].
      split.
      * destruct (proj1 (Hge 1)) as [|(v & Hv & Hk)]; [lia | lia |].
        exists v. split; [exact Hv | apply classify_ge_1, Hk].
      * intros v Hv. apply classify_le_1.
        apply (proj1 (Hle 1)); [lia | exact Hv].
    + intros [(v & Hv & Hne) Hall].
      assert (1 ≤ foldr f 0 col) as H1.
      { apply Hge. right. exists v. split; [exact Hv | apply classify_ge_1, Hne]. }
      assert (foldr f 0 col ≤ 1) as H2.
      { apply Hle. split; [lia|]. intros w Hw. apply classify_le_1, Hall, Hw. }
      destruct (foldr f 0 col =? 0) eqn:E; [apply Nat.eqb_eq in E|]; lia.
  - split.
    + intros H. destruct (foldr f 0 col =? 0) eqn:E; [discriminate|].
      split.
      * destruct (proj1 (Hge 2)) as [|(v & Hv & Hk)]; [lia | lia |].
        exists v. split; [exact Hv | apply classify_ge_2, Hk].
      * intros v Hv. apply classify_le_2.
        apply (proj1 (Hle 2)); [lia | exact Hv].
    + intros [(v & Hv & Hne) Hall].
      assert (2 ≤ foldr f 0 col) as H1.
      { apply Hge. right. exists v. split; [exact Hv | apply classify_ge_2, Hne]. }
      assert (foldr f 0 col ≤ 2) as H2.
      { apply Hle. split; [lia|]. intros w Hw. apply classify_le_2, Hall, Hw. }
      destruct (foldr f 0 col =? 0) eqn:E; [apply Nat.eqb_eq in E|]; lia.
  - split.
    + intros H. destruct (foldr f 0 col =? 0) eqn:E.
      * left. intros v Hv. apply Nat.eqb_eq in E.
        destruct (ascii_dec (peek v) NUL) as [|Hne]; [assumption|].
        apply classify_ge_1 in Hne.
        pose proof (proj1 (Hle 0) ltac:(lia)) as [_ Hall].
        specialize (Hall v Hv). lia.
      * right. destruct (proj1 (Hge 3)) as [|(v & Hv & Hk)]; [lia | lia |].
        exists v. split; [exact Hv | apply classify_ge_3, Hk].
    + intros [Hall | (v & Hv & Hne)].
      * assert (foldr f 0 col ≤ 0) as H0.
        { apply Hle. split; [lia|]. intros w Hw.
          pose proof (classify_ge_1 w) as Hw1. specialize (Hall w Hw).
          destruct (decide (1 ≤ rank (classify w))) as [H1|]; [|lia].
          apply Hw1 in H1. contradiction. }
        assert (foldr f 0 col = 0) as -> by lia. reflexivity.
      * assert (3 ≤ foldr f 0 col) as H3.
        { apply Hge. right. exists v. split; [exact Hv | apply classify_ge_3, Hne]. }
        assert (foldr f 0 col ≤ 3) as H3'.
        { apply Hle. split; [lia|]. intros w _. destruct (classify w); simpl; lia. }
        destruct (foldr f 0 col =? 0) eqn:E; [apply Nat.eqb_eq in E|]; lia.
Qed.

Lemma reported_type_characterised_witness :
  infer_rows 2 [[lit "7"; lit "x"]; [lit ""]; [lit "-3"]] !! 0
    = Some TYPE_INTEGER.
Proof.
  apply (reported_type_characterised 2 0
           [[lit "7"; lit "x"]; [lit ""]; [lit "-3"]]); [lia|].
  split.
  - exists (lit "7"). split; [left | discriminate].
  - intros v Hv Hne. simpl in Hv.
    repeat (apply elem_of_cons in Hv as [-> | Hv];
            [first [reflexivity | contradiction Hne; reflexivity]|]).
    inversion Hv.
Defined.

(** ** Rows and columns *)

Lemma cell_at_pad (c ncols i : nat) (cells : list cstr) :
  cell_at (pad_cells c ncols cells) i = cell_at cells i.
Proof.
  unfold cell_at, pad_cells, cstr in *.
  destruct (decide (i < length cells)) as [Hi|Hi].
  - rewrite lookup_app_l by assumption. reflexivity.
  - assert (length cells ≤ i) as Hge by lia.
    rewrite lookup_app_r by exact Hge.
    rewrite (lookup_ge_None_2 cells i Hge). simpl.
    destruct (replicate (ncols - c) [] !! (i - length cells)) as [v|] eqn:E;
      [|reflexivity].
    apply lookup_replicate_1 in E as [-> _]. reflexivity.
Qed.

Lemma column_cons (ncols i : nat) (r : list cstr) (rows : list (list cstr)) :
  column ncols i (r :: rows) = cell_at r i :: column ncols i rows.
Proof. unfold column. simpl. rewrite cell_at_pad. reflexivity. Qed.

Lemma column_app (ncols i : nat) (rows rows' : list (list cstr)) :
  column ncols i (rows ++ rows') = column ncols i rows ++ column ncols i rows'.
Proof. unfold column. apply map_app. Qed.

Lemma elem_of_column (ncols i : nat) (rows : list (list cstr)) (v : cstr) :
  v ∈ column ncols i rows ↔ ∃ r, r ∈ rows ∧ v = cell_at r i.
Proof.
  induction rows as [|r rows IH].
  - split; [intros H; inversion H | intros (r & H & _); inversion H].
  - rewrite column_cons, elem_of_cons, IH. split.
    + intros [-> | (r' & Hr' & ->)].
      * exists r. split; [left | reflexivity].
      * exists r'. split; [right; exact Hr' | reflexivity].
    + intros (r' & Hr' & ->). apply elem_of_cons in Hr' as [-> | Hr'].
      * left. reflexivity.
      * right. exists r'. split; [exact Hr' | reflexivity].
Qed.

Lemma column_map (ncols i : nat) (g : list cstr → list cstr)
  (rows : list (list cstr)) :
  (∀ r, cell_at (g r) i = cell_at r i) →
  column ncols i (map g rows) = column ncols i rows.
Proof.
  intros Hg. induction rows as [|r rows IH]; [reflexivity|].
  cbn [map]. rewrite !column_cons, Hg, IH. reflexivity.
Qed.

(** The evidence a column ends with depends on the set of values only. *)
Lemma observe_all_same_values (vs vs' : list cstr) (t : ColType) :
  (∀ v, v ∈ vs → v ∈ vs') →
  rank (observe_all t vs) ≤ rank (observe_all t vs').
Proof.
  intros Hsub. rewrite !rank_observe_all.
  apply foldr_max_le. split.
  - apply foldr_max_ge. left. lia.
  - intros v Hv. apply foldr_max_ge. right. exists v.
    split; [apply Hsub, Hv | lia].
Qed.

Lemma infer_rows_same_rows (ncols : nat) (rows rows' : list (list cstr)) :
  (∀ r, r ∈ rows ↔ r ∈ rows') →
  infer_rows ncols rows = infer_rows ncols rows'.
Proof.
  intros Hsame. apply infer_rows_ext. intros i _. apply rank_inj.
  apply Nat.le_antisymm; apply observe_all_same_values; intros v Hv;
    apply elem_of_column in Hv as (r & Hr & ->); apply elem_of_column;
    exists r; (split; [apply Hsame, Hr | reflexivity]).
Qed.

Lemma observe_blank (t : ColType) (v : cstr) : peek v = NUL → observe t v = t.
Proof. intros H. unfold observe. rewrite H. reflexivity. Qed.

Lemma infer_rows_blank_row (ncols : nat) (rows1 rows2 : list (list cstr))
  (r : list cstr) :
  Forall (λ v, peek v = NUL) r →
  infer_rows ncols (rows1 ++ r :: rows2) = infer_rows ncols (rows1 ++ rows2).
Proof.
  intros Hr. apply infer_rows_ext. intros i _.
  rewrite !column_app, column_cons, !observe_all_app, observe_all_cons.
  rewrite observe_blank; [reflexivity|].
  unfold cell_at. destruct (r !! i) as [v|] eqn:E; [|reflexivity].
  simpl. eapply Forall_lookup_1 in Hr; [exact Hr | exact E].
Qed.

(** ** The scan of a file, through the rows *)

Lemma split_csv_line_cells_of (line : cstr) :
  split_csv_line line MAX_COLS "," = Some (length (cells_of line), cells_of line).
Proof.
  unfold cells_of.
  destruct (split_csv_line_total line MAX_COLS ",") as (n & fs & -> & -> & _).
  reflexivity.
Qed.

Lemma scan_lines_cells_of (ncols : nat) (lines : list cstr) :
  ∀ types,
    scan_lines ncols types lines
      = Some (scan_rows ncols types (map cells_of lines)).
Proof.
  induction lines as [|line lines IH]; intros types; [reflexivity|].
  cbn [scan_lines map]. rewrite split_csv_line_cells_of, IH. reflexivity.
Qed.

Lemma infer_file_rows (header : cstr) (data : list cstr) :
  infer_file header data =
    Some (if length (cells_of header) =? 0 then []
          else infer_rows (length (cells_of header)) (map cells_of data)).
Proof.
  unfold infer_file. rewrite split_csv_line_cells_of.
  destruct (length (cells_of header) =? 0); [reflexivity|].
  rewrite scan_lines_cells_of. reflexivity.
Qed.

Lemma elem_of_map_cells_of (data : list cstr) (r : list cstr) :
  r ∈ map cells_of data ↔ ∃ l, l ∈ data ∧ r = cells_of l.
Proof.
  rewrite list_elem_of_In, in_map_iff. split.
  - intros (l & <- & Hl). exists l. split; [apply list_elem_of_In, Hl | reflexivity].
  - intros (l & Hl & ->). exists l. split; [reflexivity | apply list_elem_of_In, Hl].
Qed.

(** X2: the types reported for a file depend on which data lines occur,
    not on their order or on how often a line is repeated. *)
Theorem infer_file_order_irrelevant (header : cstr) (data data' : list cstr) :
  (∀ l, l ∈ data ↔ l ∈ data') →
  infer_file header data = infer_file header data'.
Proof.
  intros Hsame. rewrite !infer_file_rows.
  destruct (length (cells_of header) =? 0); [reflexivity|].
  f_equal. apply infer_rows_same_rows. intros r.
  rewrite !elem_of_map_cells_of.
  split; intros (l & Hl & ->); exists l; (split; [apply Hsame, Hl | reflexivity]).
Qed.

Lemma infer_file_order_irrelevant_witness :
  infer_file (lit "a,b") [lit "1,x"; lit "2.5,y"; lit "1,x"] =
  infer_file (lit "a,b") [lit "2.5,y"; lit "1,x"].
Proof.
  apply infer_file_order_irrelevant. intros l.
  rewrite !elem_of_cons. split.
  - intros [-> | [-> | [-> | H]]]; [tauto | tauto | tauto | inversion H].
  - intros [-> | [-> | H]]; [tauto | tauto | inversion H].
Defined.

(** X3: the cells of a row past the column count of the header are never
    read, and cells a short row lacks count as empty ones: cutting every
    row to the column count, or appending empty cells to every row, leaves
    the reported types as they are. *)
Theorem cells_past_header_ignored (ncols : nat) (rows : list (list cstr)) :
  infer_rows ncols (map (take ncols) rows) = infer_rows ncols rows ∧
  ∀ k, infer_rows ncols (map (λ r, r ++ replicate k []) rows)
       = infer_rows ncols rows.
Proof.
  split; [|intros k]; apply infer_rows_ext; intros i Hi; f_equal;
    apply column_map; intros r.
  - unfold cell_at. rewrite lookup_take_lt by assumption. reflexivity.
  - replace k with (k - 0) by lia. apply (cell_at_pad 0 k i r).
Qed.

Lemma split_on_delimiters (line : cstr) :
  Forall (λ c, c = ","%char) line →
  nul_free line = true ∧ quote_free line = true ∧
  drop_empty_last (split_on "," line) = replicate (length line) [].
Proof.
  induction 1 as [|c line -> _ (Hn & Hq & IH)].
  - repeat split.
  - split; [exact Hn|]. split; [exact Hq|].
    cbn [split_on length replicate]. rewrite Ascii.eqb_refl.
    rewrite drop_empty_last_cons by apply split_on_nonempty.
    rewrite IH. reflexivity.
Qed.

Lemma cells_of_delimiters (line : cstr) :
  Forall (λ c, c = ","%char) line → Forall (λ v, peek v = NUL) (cells_of line).
Proof.
  intros H. destruct (split_on_delimiters line H) as (Hn & Hq & Hsplit).
  unfold cells_of.
  rewrite split_csv_line_unquoted by first [assumption | discriminate].
  cbv zeta. rewrite Hsplit. apply Forall_take, Forall_replicate. reflexivity.
Qed.

(** X4: a data line that is empty or holds nothing but delimiters changes
    nothing: the reported types are those of the file without the line. *)
Theorem infer_file_blank_line (header : cstr) (data1 data2 : list cstr)
  (line : cstr) :
  Forall (λ c, c = ","%char) line →
  infer_file header (data1 ++ line :: data2) = infer_file header (data1 ++ data2).
Proof.
  intros H. rewrite !infer_file_rows.
  destruct (length (cells_of header) =? 0); [reflexivity|].
  rewrite !map_app. cbn [map].
  rewrite infer_rows_blank_row by apply cells_of_delimiters, H.
  reflexivity.
Qed.

Lemma infer_file_blank_line_witness :
  infer_file (lit "a,b") ([lit "1,2"] ++ lit ",," :: [lit "3,x"]) =
  infer_file (lit "a,b") ([lit "1,2"] ++ [lit "3,x"]).
Proof.
  apply infer_file_blank_line. repeat constructor.
Defined.

(** X5: for every header and every list of data lines the scan returns
    one type for each cell of the header, and none of them is Unknown. *)
Theorem infer_file_shape (header : cstr) (data : list cstr) :
  ∃ types,
    infer_file header data = Some types ∧
    length types = length (cells_of header) ∧
    ∀ t, t ∈ types → t ≠ TYPE_UNKNOWN.
Proof.
  rewrite infer_file_rows. eexists. split; [reflexivity|].
  destruct (length (cells_of header) =? 0) eqn:E.
  - apply Nat.eqb_eq in E. split; [symmetry; exact E|].
    intros t Ht. inversion Ht.
  - split; [apply length_infer_rows|].
    intros t Ht. apply list_elem_of_lookup in Ht as [i Hi].
    assert (i < length (cells_of header)) as Hlt.
    { apply lookup_lt_Some in Hi. rewrite length_infer_rows in Hi. exact Hi. }
    rewrite infer_rows_lookup in Hi by exact Hlt. injection Hi as <-.
    destruct (observe_all _ _); discriminate.
Qed.

(** ** Quoted fields *)

Lemma some_triple {A B C : Type} (a a' : A) (b b' : B) (c c' : C) :
  a = a' → b = b' → c = c' → Some (a, b, c) = Some (a', b', c').
Proof. intros -> -> ->. reflexivity. Qed.

Ltac list_arith := rewrite ?length_app; cbn [length]; lia.

Lemma rd_app_1 (pre : list ascii) (c : ascii) (l : list ascii) :
  rd (pre ++ c :: l) (length pre + 1) = peek l.
Proof. rewrite rd_app_r. destruct l; reflexivity. Qed.

(** The copy loop on a field body whose quotes are all doubled, up to the
    closing quote or the end of the line: the content is written from the
    write offset on, with one quote for each doubled one, and the bytes
    between the end of the copy and the read offset keep what they held. *)
Lemma unquote_loop_escaped (content : cstr) :
  Forall (λ c, c ≠ NUL) content →
  ∀ pre gap post fuel,
    gap ≠ [] →
    (peek post = NUL ∨ ∃ post1, post = DQUOTE :: post1 ∧ peek post1 ≠ DQUOTE) →
    length (quote_escape content) < fuel →
    ∃ gap',
      gap' ≠ [] ∧
      unquote_loop fuel (pre ++ gap ++ quote_escape content ++ post)
        (length pre + length gap) (length pre)
      = Some (pre ++ content ++ gap' ++ post,
              length pre + length content + length gap' +
                (if Ascii.eqb (peek post) DQUOTE then 1 else 0),
              length pre + length content).
Proof.
  induction 1 as [|c content Hc _ IH]; intros pre gap post fuel Hgap Hpost Hfuel;
    (destruct fuel as [|fuel]; [simpl in Hfuel; lia|]).
  - exists gap. split; [exact Hgap|]. cbn [quote_escape app unquote_loop].
    replace (pre ++ gap ++ post) with ((pre ++ gap) ++ post)
      by (rewrite <- app_assoc; reflexivity).
    replace (length pre + length gap) with (length (pre ++ gap))
      by (rewrite length_app; reflexivity).
    rewrite rd_app_0. destruct Hpost as [Hnul | (post1 & -> & Hp1)].
    + rewrite Hnul.
      change (Ascii.eqb NUL DQUOTE) with false.
      change (Ascii.eqb NUL NUL) with true. cbv iota.
      apply some_triple;
        [rewrite <- ?app_assoc; reflexivity | list_arith | list_arith].
    + cbn [peek]. rewrite Ascii.eqb_refl, rd_app_1.
      apply Ascii.eqb_neq in Hp1. rewrite Hp1.
      apply some_triple;
        [rewrite <- ?app_assoc; reflexivity | list_arith | list_arith].
  - destruct gap as [|g gap]; [contradiction|].
    cbn [quote_escape]. destruct (Ascii.eqb c DQUOTE) eqn:Hq.
    + apply Ascii.eqb_eq in Hq. subst c.
      destruct (IH (pre ++ [DQUOTE]) (gap ++ [DQUOTE; DQUOTE]) post fuel)
        as (gap' & Hgap' & Hrun).
      { destruct gap; discriminate. }
      { exact Hpost. }
      { cbn [quote_escape] in Hfuel. rewrite Ascii.eqb_refl in Hfuel.
        simpl in Hfuel. lia. }
      exists gap'. split; [exact Hgap'|].
      cbn [unquote_loop].
      replace (pre ++ (g :: gap) ++ (DQUOTE :: DQUOTE :: quote_escape content) ++ post)
        with ((pre ++ g :: gap) ++ DQUOTE :: (DQUOTE :: quote_escape content ++ post))
        by (rewrite <- !app_assoc; reflexivity).
      replace (length pre + length (g :: gap)) with (length (pre ++ g :: gap))
        by (rewrite length_app; reflexivity).
      rewrite rd_app_0, rd_app_1. cbn [peek]. rewrite Ascii.eqb_refl.
      rewrite <- app_assoc. cbn [app]. rewrite wr_app_0.
      replace (pre ++ DQUOTE :: gap ++ DQUOTE :: DQUOTE :: quote_escape content ++ post)
        with ((pre ++ [DQUOTE]) ++ (gap ++ [DQUOTE; DQUOTE]) ++
              quote_escape content ++ post)
        by (rewrite <- !app_assoc; reflexivity).
      replace (length (pre ++ g :: gap) + 2)
        with (length (pre ++ [DQUOTE]) + length (gap ++ [DQUOTE; DQUOTE]))
        by (rewrite !length_app; simpl; lia).
      replace (length pre + 1) with (length (pre ++ [DQUOTE]))
        by (rewrite length_app; reflexivity).
      rewrite Hrun. rewrite <- !app_assoc, !length_app. cbn [app length].
      apply some_triple; [reflexivity | list_arith | list_arith].
    + destruct (IH (pre ++ [c]) (gap ++ [c]) post fuel)
        as (gap' & Hgap' & Hrun).
      { destruct gap; discriminate. }
      { exact Hpost. }
      { cbn [quote_escape] in Hfuel. rewrite Hq in Hfuel.
        simpl in Hfuel. lia. }
      exists gap'. split; [exact Hgap'|].
      cbn [unquote_loop].
      replace (pre ++ (g :: gap) ++ (c :: quote_escape content) ++ post)
        with ((pre ++ g :: gap) ++ c :: (quote_escape content ++ post))
        by (rewrite <- !app_assoc; reflexivity).
      replace (length pre + length (g :: gap)) with (length (pre ++ g :: gap))
        by (rewrite length_app; reflexivity).
      rewrite rd_app_0. cbn [peek]. rewrite Hq.
      apply Ascii.eqb_neq in Hc. rewrite Hc.
      rewrite <- app_assoc. cbn [app]. rewrite wr_app_0.
      replace (pre ++ c :: gap ++ c :: quote_escape content ++ post)
        with ((pre ++ [c]) ++ (gap ++ [c]) ++ quote_escape content ++ post)
        by (rewrite <- !app_assoc; reflexivity).
      replace (length (pre ++ g :: gap) + 1)
        with (length (pre ++ [c]) + length (gap ++ [c]))
        by (rewrite !length_app; simpl; lia).
      replace (length pre + 1) with (length (pre ++ [c]))
        by (rewrite length_app; reflexivity).
      rewrite Hrun. rewrite <- !app_assoc, !length_app. cbn [app length].
      apply some_triple; [reflexivity | list_arith | list_arith].
Qed.

(** ** One field at a time *)

Lemma split_loop_bare_unfold (fuel max_cells : nat) (d : ascii)
  (buf : list ascii) (p count : nat) (cells : list nat) :
  rd buf p ≠ NUL → rd buf p ≠ DQUOTE → count < max_cells →
  split_loop (S fuel) max_cells d buf p count cells =
    q ← skip_to_delim fuel buf d p;
    if Ascii.eqb (rd buf q) d then
      split_loop fuel max_cells d (wr buf q NUL) (q + 1) (count + 1)
        (cells ++ [p])
    else split_loop fuel max_cells d buf q (count + 1) (cells ++ [p]).
Proof.
  intros Hn Hq Hroom. cbn [split_loop].
  apply Ascii.eqb_neq in Hn, Hq. rewrite Hn, Hq.
  apply Nat.ltb_lt in Hroom. rewrite Hroom. reflexivity.
Qed.

Lemma split_loop_quoted_unfold (fuel max_cells : nat) (d : ascii)
  (buf : list ascii) (p count : nat) (cells : list nat) :
  rd buf p = DQUOTE → count < max_cells →
  split_loop (S fuel) max_cells d buf p count cells =
    match unquote_loop fuel buf (p + 1) p with
    | Some (buf1, p1, w1) =>
        q ← skip_to_delim fuel (wr buf1 w1 NUL) d p1;
        split_loop fuel max_cells d (wr buf1 w1 NUL)
          (if Ascii.eqb (rd (wr buf1 w1 NUL) q) d then q + 1 else q)
          (count + 1) (cells ++ [p + 1])
    | None => None
    end.
Proof.
  intros Hq Hroom. cbn [split_loop]. rewrite Hq.
  change (Ascii.eqb DQUOTE NUL) with false.
  rewrite Ascii.eqb_refl.
  apply Nat.ltb_lt in Hroom. rewrite Hroom. cbn [negb andb].
  destruct (unquote_loop fuel buf (p + 1) p) as [[[buf1 p1] w1]|];
    reflexivity.
Qed.

Lemma plain_Forall (d : ascii) (s : cstr) :
  plain d s = true →
  Forall (λ c, c ≠ NUL ∧ c ≠ d) s ∧ peek s ≠ DQUOTE.
Proof.
  unfold plain. intros H. apply andb_true_iff in H as [Hall Hq].
  split; [|apply Ascii.eqb_neq, negb_true_iff, Hq].
  clear Hq. induction s as [|c s IH]; [constructor|].
  simpl in Hall. apply andb_true_iff in Hall as [Hc Hall].
  apply andb_true_iff in Hc as [Hc Hd].
  apply negb_true_iff, Ascii.eqb_neq in Hc, Hd.
  constructor; [split; assumption | apply IH, Hall].
Qed.

Lemma nul_free_Forall (s : cstr) :
  nul_free s = true → Forall (λ c, c ≠ NUL) s.
Proof.
  induction s as [|c s IH]; [constructor|]. simpl. intros H.
  apply andb_true_iff in H as [Hc H].
  apply negb_true_iff, Ascii.eqb_neq in Hc.
  constructor; [assumption | apply IH, H].
Qed.

(** A bare field followed by the delimiter: its offset is stored, the
    delimiter becomes the terminator, and the loop goes on after it. *)
Lemma split_loop_bare_more (fuel max_cells : nat) (d : ascii)
  (pre t R : list ascii) (count : nat) (cells : list nat) :
  d ≠ NUL → d ≠ DQUOTE → plain d t = true →
  count < max_cells → length t < fuel →
  split_loop (S fuel) max_cells d (pre ++ t ++ d :: R) (length pre) count cells
  = split_loop fuel max_cells d ((pre ++ t ++ [NUL]) ++ R)
      (length (pre ++ t ++ [NUL])) (count + 1) (cells ++ [length pre]).
Proof.
  intros Hd Hdq Ht Hroom Hfuel.
  apply plain_Forall in Ht as [Hall Hpeek].
  rewrite split_loop_bare_unfold; try assumption.
  - rewrite (skip_to_delim_segment d t Hall pre (d :: R) fuel)
      by first [right; reflexivity | assumption].
    cbn [mbind option_bind].
    replace (pre ++ t ++ d :: R) with ((pre ++ t) ++ d :: R)
      by (rewrite <- app_assoc; reflexivity).
    replace (length pre + length t) with (length (pre ++ t))
      by (rewrite length_app; reflexivity).
    rewrite rd_app_0. cbn [peek]. rewrite Ascii.eqb_refl, wr_app_0.
    f_equal; [rewrite <- !app_assoc; reflexivity | list_arith].
  - rewrite rd_app_0. destruct Hall as [|c t [Hc _] _]; [exact Hd | exact Hc].
  - rewrite rd_app_0. destruct t as [|c t]; [exact Hdq | exact Hpeek].
Qed.

(** A bare field that ends the line. *)
Lemma split_loop_bare_end (fuel max_cells : nat) (d : ascii)
  (pre t : list ascii) (count : nat) (cells : list nat) :
  d ≠ NUL → plain d t = true → t ≠ [] →
  count < max_cells → length t < fuel →
  split_loop (S (S fuel)) max_cells d (pre ++ t ++ [NUL]) (length pre)
    count cells
  = Some (count + 1, cells ++ [length pre], pre ++ t ++ [NUL]).
Proof.
  intros Hd Ht Hne Hroom Hfuel.
  apply plain_Forall in Ht as [Hall Hpeek].
  destruct t as [|c t]; [contradiction|].
  pose proof (Forall_inv Hall) as [Hc _].
  rewrite split_loop_bare_unfold; try assumption;
    try (rewrite rd_app_0; assumption).
  rewrite (skip_to_delim_segment d (c :: t) Hall pre [NUL] (S fuel))
    by first [left; reflexivity | simpl in *; lia].
  cbn [mbind option_bind].
  replace (pre ++ (c :: t) ++ [NUL]) with ((pre ++ c :: t) ++ [NUL])
    by (rewrite <- app_assoc; reflexivity).
  replace (length pre + length (c :: t)) with (length (pre ++ c :: t))
    by (rewrite length_app; reflexivity).
  rewrite rd_app_0. cbn [peek].
  assert (Ascii.eqb NUL d = false) as -> by (apply Ascii.eqb_neq; congruence).
  apply split_loop_stop. left. apply rd_app_0.
Qed.

(** A quoted field, closed or not, up to the delimiter or the end of the
    line that follows it: the content is moved to the offset of the opening
    quote and terminated, the offset after the opening quote is stored, and
    the loop goes on after the delimiter, if there is one. *)
Lemma split_loop_quoted_step (fuel max_cells : nat) (d : ascii)
  (pre R : list ascii) (f : field) (content : cstr)
  (count : nat) (cells : list nat) :
  d ≠ NUL → d ≠ DQUOTE →
  match f with
  | Bare _ => False
  | Quoted c j => c = content ∧ plain d j = true ∧
                  (peek R = NUL ∨ peek R = d)
  | Open c => c = content ∧ peek R = NUL
  end →
  Forall (λ c, c ≠ NUL) content →
  count < max_cells →
  length (encode f) < fuel →
  ∃ G,
    split_loop (S fuel) max_cells d (pre ++ encode f ++ R) (length pre)
      count cells
    = split_loop fuel max_cells d (pre ++ content ++ NUL :: G ++ R)
        (length (pre ++ content ++ NUL :: G) +
           (if Ascii.eqb (peek R) d then 1 else 0))
        (count + 1) (cells ++ [length pre + 1]).
Proof.
  intros Hd Hdq Hf Hcontent Hroom Hfuel.
  destruct f as [t | c j | c]; [contradiction | |].
  - destruct Hf as (-> & Hj & HR).
    apply plain_Forall in Hj as [Hj Hjq].
    cbn [encode] in Hfuel |- *. simpl in Hfuel. rewrite length_app in Hfuel.
    simpl in Hfuel.
    destruct (unquote_loop_escaped content Hcontent pre [DQUOTE]
                (DQUOTE :: j ++ R) fuel) as (gap' & Hgap' & Hrun).
    { discriminate. }
    { right. exists (j ++ R). split; [reflexivity|].
      destruct j as [|c j]; [|exact Hjq].
      cbn [app]. destruct HR as [-> | ->]; [discriminate | exact Hdq]. }
    { lia. }
    destruct gap' as [|g G]; [contradiction|]. clear Hgap'.
    exists (G ++ DQUOTE :: j).
    rewrite split_loop_quoted_unfold; try assumption.
    2: { rewrite rd_app_0. reflexivity. }
    replace (pre ++ (DQUOTE :: quote_escape content ++ DQUOTE :: j) ++ R)
      with (pre ++ [DQUOTE] ++ quote_escape content ++ DQUOTE :: j ++ R)
      by (cbn [app]; rewrite <- ?app_assoc; reflexivity).
    change (length pre + 1) with (length pre + length [DQUOTE]) at 1.
    rewrite Hrun. cbn [peek]. rewrite Ascii.eqb_refl.
    replace (pre ++ content ++ (g :: G) ++ DQUOTE :: j ++ R)
      with ((pre ++ content) ++ g :: (G ++ DQUOTE :: j ++ R))
      by (rewrite <- ?app_assoc; reflexivity).
    replace (length pre + length content) with (length (pre ++ content))
      by (rewrite length_app; reflexivity).
    rewrite wr_app_0.
    replace ((pre ++ content) ++ NUL :: G ++ DQUOTE :: j ++ R)
      with ((pre ++ content ++ NUL :: G ++ [DQUOTE]) ++ j ++ R)
      by (rewrite <- ?app_assoc; cbn [app]; rewrite <- ?app_assoc; reflexivity).
    replace (length (pre ++ content) + length (g :: G) + 1)
      with (length (pre ++ content ++ NUL :: G ++ [DQUOTE]))
      by (rewrite ?length_app; cbn [length]; rewrite ?length_app; cbn [length]; lia).
    rewrite (skip_to_delim_segment d j Hj _ R fuel) by first [assumption | lia].
    cbn [mbind option_bind].
    replace ((pre ++ content ++ NUL :: G ++ [DQUOTE]) ++ j ++ R)
      with ((pre ++ content ++ NUL :: G ++ DQUOTE :: j) ++ R)
      by (rewrite <- ?app_assoc; cbn [app]; rewrite <- ?app_assoc; reflexivity).
    replace (length (pre ++ content ++ NUL :: G ++ [DQUOTE]) + length j)
      with (length (pre ++ content ++ NUL :: G ++ DQUOTE :: j))
      by (rewrite ?length_app; cbn [length]; rewrite ?length_app; cbn [length]; lia).
    rewrite rd_app_0.
    f_equal.
    + rewrite <- ?app_assoc. cbn [app]. rewrite <- ?app_assoc. reflexivity.
    + destruct (Ascii.eqb (peek R) d);
        rewrite ?length_app; cbn [length]; rewrite ?length_app; cbn [length]; lia.
  - destruct Hf as (-> & HR).
    cbn [encode] in Hfuel |- *. simpl in Hfuel.
    destruct (unquote_loop_escaped content Hcontent pre [DQUOTE] R fuel)
      as (gap' & Hgap' & Hrun).
    { discriminate. }
    { left. exact HR. }
    { lia. }
    destruct gap' as [|g G]; [contradiction|]. clear Hgap'.
    exists G.
    rewrite split_loop_quoted_unfold; try assumption.
    2: { rewrite rd_app_0. reflexivity. }
    replace (pre ++ (DQUOTE :: quote_escape content) ++ R)
      with (pre ++ [DQUOTE] ++ quote_escape content ++ R)
      by (cbn [app]; rewrite <- ?app_assoc; reflexivity).
    change (length pre + 1) with (length pre + length [DQUOTE]) at 1.
    rewrite Hrun, HR.
    change (Ascii.eqb NUL DQUOTE) with false. cbv iota.
    replace (pre ++ content ++ (g :: G) ++ R)
      with ((pre ++ content) ++ g :: (G ++ R))
      by (rewrite <- ?app_assoc; reflexivity).
    replace (length pre + length content) with (length (pre ++ content))
      by (rewrite length_app; reflexivity).
    rewrite wr_app_0.
    replace ((pre ++ content) ++ NUL :: G ++ R)
      with ((pre ++ content ++ NUL :: G) ++ [] ++ R)
      by (rewrite <- ?app_assoc; reflexivity).
    replace (length (pre ++ content) + length (g :: G) + 0)
      with (length (pre ++ content ++ NUL :: G))
      by (rewrite ?length_app; cbn [length]; lia).
    rewrite (skip_to_delim_segment d [] ltac:(constructor) _ R fuel)
      by first [left; assumption | simpl; lia].
    cbn [mbind option_bind length app]. rewrite Nat.add_0_r, rd_app_0, HR.
    assert (Ascii.eqb NUL d = false) as -> by (apply Ascii.eqb_neq; congruence).
    f_equal; [rewrite <- ?app_assoc; reflexivity | lia].
Qed.

Ltac reassoc := rewrite <- ?app_assoc; cbn [app]; rewrite <- ?app_assoc; reflexivity.

Lemma cstr_at_tail (pre content rest : list ascii) :
  content ≠ [] → Forall (λ c, c ≠ NUL) content →
  cstr_at (pre ++ content ++ NUL :: rest) (length pre + 1) = tail content.
Proof.
  intros Hne Hall. destruct Hall as [|c content _ Hall]; [contradiction|].
  replace (pre ++ (c :: content) ++ NUL :: rest)
    with ((pre ++ [c]) ++ content ++ NUL :: rest) by reassoc.
  replace (length pre + 1) with (length (pre ++ [c])) by list_arith.
  apply cstr_at_app, Hall.
Qed.

Lemma nonempty_true (s : cstr) : nonempty s = true → s ≠ [].
Proof. destruct s; [discriminate | discriminate]. Qed.

(** The outer loop on a line made of well-formed fields: one cell for each
    field, in order, until the room for cells is exhausted. *)
Lemma split_loop_fields (max_cells : nat) (d : ascii) :
  d ≠ NUL → d ≠ DQUOTE →
  ∀ fs f fuel pre count cells,
    fields_ok d f fs = true →
    length (join_fields d f fs) + 3 ≤ fuel →
    ∃ offs tl,
      split_loop fuel max_cells d (pre ++ join_fields d f fs ++ [NUL])
        (length pre) count cells
        = Some (count + length offs, cells ++ offs, pre ++ tl) ∧
      map (cstr_at (pre ++ tl)) offs = take (max_cells - count) (values f fs).
Proof.
  intros Hd Hdq.
  assert (Ascii.eqb NUL d = false) as HNd by (apply Ascii.eqb_neq; congruence).
  induction fs as [|g fs IH]; intros f fuel pre count cells Hok Hfuel;
    (destruct fuel as [|fuel]; [lia|]);
    (destruct (decide (max_cells ≤ count)) as [Hfull | Hroom];
     [ eexists [], _; rewrite split_loop_stop by (right; exact Hfull);
       rewrite Nat.add_0_r, app_nil_r;
       replace (max_cells - count) with 0 by lia;
       split; reflexivity |]);
    assert (max_cells - count = S (max_cells - (count + 1))) as Htake by lia;
    rewrite Htake; clear Htake.
  - (* the last field of the line *)
    cbn [join_fields values fields_ok] in *.
    destruct f as [t | c j | c]; cbn [field_ok value] in *.
    + cbn [encode] in *. destruct t as [|c0 t].
      * exists [], [NUL]. rewrite split_loop_stop
          by (left; rewrite rd_app_0; reflexivity).
        rewrite Nat.add_0_r, app_nil_r. split; reflexivity.
      * destruct fuel as [|fuel]; [simpl in Hfuel; lia|].
        rewrite split_loop_bare_end;
          try first [assumption | discriminate | simpl in Hfuel |- *; lia].
        exists [length pre], ((c0 :: t) ++ [NUL]). split; [reflexivity|].
        cbn [map take]. rewrite take_nil. f_equal.
        apply cstr_at_app. apply plain_Forall in Hok as [Hall _].
        eapply Forall_impl; [exact Hall|]. intros ? [? _]. assumption.
    + apply andb_true_iff in Hok as [Hok Hj].
      apply andb_true_iff in Hok as [Hne Hn].
      apply nonempty_true in Hne. apply nul_free_Forall in Hn.
      destruct (split_loop_quoted_step fuel max_cells d pre [NUL]
                  (Quoted c j) c count cells Hd Hdq) as (G & ->);
        try first [assumption | lia].
      { split; [reflexivity|]. split; [exact Hj | left; reflexivity]. }
      cbn [peek]. rewrite HNd.
      destruct fuel as [|fuel]; [simpl in Hfuel; lia|].
      replace (pre ++ c ++ NUL :: G ++ [NUL])
        with ((pre ++ c ++ NUL :: G) ++ [NUL]) by reassoc.
      rewrite Nat.add_0_r.
      rewrite split_loop_stop by (left; rewrite rd_app_0; reflexivity).
      exists [length pre + 1], (c ++ NUL :: G ++ [NUL]).
      rewrite <- !app_assoc. split; [reflexivity|].
      destruct c as [|c0 c]; [contradiction|].
      cbn [map take values]. rewrite take_nil. f_equal.
      apply (cstr_at_tail pre (c0 :: c)); assumption.
    + apply andb_true_iff in Hok as [Hne Hn].
      apply nonempty_true in Hne. apply nul_free_Forall in Hn.
      destruct (split_loop_quoted_step fuel max_cells d pre [NUL]
                  (Open c) c count cells Hd Hdq) as (G & ->);
        try first [assumption | lia].
      { split; reflexivity. }
      cbn [peek]. rewrite HNd.
      destruct fuel as [|fuel]; [simpl in Hfuel; lia|].
      replace (pre ++ c ++ NUL :: G ++ [NUL])
        with ((pre ++ c ++ NUL :: G) ++ [NUL]) by reassoc.
      rewrite Nat.add_0_r.
      rewrite split_loop_stop by (left; rewrite rd_app_0; reflexivity).
      exists [length pre + 1], (c ++ NUL :: G ++ [NUL]).
      rewrite <- !app_assoc. split; [reflexivity|].
      destruct c as [|c0 c]; [contradiction|].
      cbn [map take values]. rewrite take_nil. f_equal.
      apply (cstr_at_tail pre (c0 :: c)); assumption.
  - (* a field followed by the delimiter *)
    cbn [join_fields values fields_ok] in Hok, Hfuel |- *.
    apply andb_true_iff in Hok as [Hf Hrest].
    rewrite length_app in Hfuel. cbn [length] in Hfuel.
    destruct f as [t | c j | c]; cbn [field_ok value] in *.
    + cbn [encode] in *.
      replace (pre ++ (t ++ d :: join_fields d g fs) ++ [NUL])
        with (pre ++ t ++ d :: (join_fields d g fs ++ [NUL])) by reassoc.
      rewrite split_loop_bare_more by first [assumption | lia].
      destruct (IH g fuel (pre ++ t ++ [NUL]) (count + 1)
                  (cells ++ [length pre]) Hrest)
        as (offs & tl & -> & Hfields); [lia|].
      exists (length pre :: offs), (t ++ [NUL] ++ tl).
      rewrite <- !app_assoc in *. cbn [app] in *. split.
      * apply some_triple; [list_arith | reflexivity | reflexivity].
      * cbn [map take]. rewrite Hfields. f_equal.
        apply cstr_at_app. apply plain_Forall in Hf as [Hall _].
        eapply Forall_impl; [exact Hall|]. intros ? [? _]. assumption.
    + apply andb_true_iff in Hf as [Hf Hj].
      apply andb_true_iff in Hf as [Hne Hn].
      apply nonempty_true in Hne. apply nul_free_Forall in Hn.
      replace (pre ++ (encode (Quoted c j) ++ d :: join_fields d g fs) ++ [NUL])
        with (pre ++ encode (Quoted c j) ++
              d :: (join_fields d g fs ++ [NUL]))
        by (rewrite <- app_assoc; reflexivity).
      destruct (split_loop_quoted_step fuel max_cells d pre
                  (d :: (join_fields d g fs ++ [NUL]))
                  (Quoted c j) c count cells Hd Hdq) as (G & ->);
        try first [assumption | lia].
      { split; [reflexivity|]. split; [exact Hj | right; reflexivity]. }
      cbn [peek]. rewrite Ascii.eqb_refl.
      replace (pre ++ c ++ NUL :: G ++ d :: join_fields d g fs ++ [NUL])
        with ((pre ++ c ++ NUL :: G ++ [d]) ++ join_fields d g fs ++ [NUL])
        by reassoc.
      replace (length (pre ++ c ++ NUL :: G) + 1)
        with (length (pre ++ c ++ NUL :: G ++ [d]))
        by (rewrite ?length_app; cbn [length]; rewrite ?length_app;
            cbn [length]; lia).
      destruct (IH g fuel (pre ++ c ++ NUL :: G ++ [d]) (count + 1)
                  (cells ++ [length pre + 1]) Hrest)
        as (offs & tl & -> & Hfields); [lia|].
      exists (length pre + 1 :: offs), (c ++ NUL :: G ++ [d] ++ tl).
      rewrite <- !app_assoc in *. cbn [app] in *.
      rewrite <- ?app_assoc in *. cbn [app] in *. split.
      * apply some_triple; [list_arith | reflexivity | reflexivity].
      * cbn [map take]. rewrite Hfields. f_equal.
        apply cstr_at_tail; assumption.
    + discriminate Hf.
Qed.

Lemma split_loop_bound (max_cells : nat) (d : ascii) (fuel : nat) :
  ∀ buf p count cells count' cells' buf',
    split_loop fuel max_cells d buf p count cells = Some (count', cells', buf') →
    count ≤ max_cells → count' ≤ max_cells.
Proof.
  induction fuel as [|fuel IH]; intros buf p count cells count' cells' buf' Hrun Hle;
    [discriminate|].
  cbn [split_loop] in Hrun.
  destruct (negb (Ascii.eqb (rd buf p) NUL) && (count <? max_cells)) eqn:Hgo.
  2: { injection Hrun as <- _ _. exact Hle. }
  apply andb_true_iff in Hgo as [_ Hroom]. apply Nat.ltb_lt in Hroom.
  destruct (Ascii.eqb (rd buf p) DQUOTE).
  - destruct (unquote_loop fuel buf (p + 1) p) as [[[buf1 p1] w1]|];
      [|discriminate]. cbn [mbind option_bind] in Hrun.
    destruct (skip_to_delim fuel (wr buf1 w1 NUL) d p1) as [q|];
      [|discriminate]. cbn [mbind option_bind] in Hrun.
    eapply IH; [exact Hrun | lia].
  - destruct (skip_to_delim fuel buf d p) as [q|]; [|discriminate].
    cbn [mbind option_bind] in Hrun.
    destruct (Ascii.eqb (rd buf q) d); (eapply IH; [exact Hrun | lia]).
Qed.

(** ** The record splitter, further *)

(** X6: on every line, for every bound that is not negative and every
    delimiter other than the terminator, the splitter returns; the count it
    returns is the number of cells it stored, and it is at most
    [max_cells]. *)
Theorem split_csv_line_bounded (line : cstr) (max_cells : nat) (d : ascii) :
  d ≠ NUL →
  ∃ n fs,
    split_csv_line line max_cells d = Some (n, fs) ∧
    n = length fs ∧ n ≤ max_cells.
Proof.
  intros _.
  destruct (split_csv_line_total line max_cells d) as (n & fs & Hrun & Hlen & _).
  exists n, fs. split; [exact Hrun|]. split; [exact Hlen|].
  unfold split_csv_line in Hrun.
  destruct (split_loop (length (line ++ [NUL]) + 2) max_cells d
              (line ++ [NUL]) 0 0 []) as [[[c cells] buf]|] eqn:E;
    [|discriminate].
  injection Hrun as <- _.
  eapply split_loop_bound; [exact E | lia].
Qed.

Lemma split_csv_line_bounded_witness :
  ∃ n fs,
    split_csv_line ([DQUOTE] ++ lit "a,b" ++ [DQUOTE] ++ lit ",c,d,e") 3 ","
      = Some (n, fs) ∧
    n = length fs ∧ n ≤ 3.
Proof.
  apply (split_csv_line_bounded
           ([DQUOTE] ++ lit "a,b" ++ [DQUOTE] ++ lit ",c,d,e") 3 ",").
  discriminate.
Defined.

(** X7: on a line without quotes, parsing stops when [max_cells] fields are
    stored: the fields are the first [max_cells] substrings between
    delimiters, and the rest of the line is discarded. *)
Theorem split_csv_line_truncates (line : cstr) (max_cells : nat) (d : ascii) :
  d ≠ NUL →
  nul_free line = true →
  quote_free line = true →
  split_csv_line line max_cells d =
    Some (length (take max_cells (drop_empty_last (split_on d line))),
          take max_cells (drop_empty_last (split_on d line))).
Proof.
  intros Hd Hn Hq. rewrite split_csv_line_unquoted by assumption. reflexivity.
Qed.

Lemma split_csv_line_truncates_witness :
  split_csv_line (lit "a,b,c,d") 2 "," = Some (2, [lit "a"; lit "b"]).
Proof.
  apply (split_csv_line_truncates (lit "a,b,c,d") 2 ",");
    solve [discriminate | reflexivity].
Defined.

(** X8: a line made of well-formed fields joined by the delimiter is cut
    into one cell for each field, up to [max_cells]: a bare field gives its
    text, with quotes inside it kept as they are; a quoted field gives its
    content with every doubled quote as one quote and with delimiters kept,
    but without its first character, whether or not the quote is closed,
    and text between the closing quote and the next delimiter is dropped;
    an empty bare field at the end of the line gives no cell. *)
Theorem split_csv_line_fields (d : ascii) (max_cells : nat)
  (f : field) (fs : list field) :
  d ≠ NUL →
  d ≠ DQUOTE →
  fields_ok d f fs = true →
  split_csv_line (join_fields d f fs) max_cells d =
    Some (length (take max_cells (values f fs)),
          take max_cells (values f fs)).
Proof.
  intros Hd Hdq Hok. unfold split_csv_line.
  destruct (split_loop_fields max_cells d Hd Hdq fs f
              (length (join_fields d f fs ++ [NUL]) + 2) [] 0 [] Hok)
    as (offs & tl & Hrun & Hfields).
  { rewrite length_app. simpl. lia. }
  simpl in Hrun, Hfields. rewrite Nat.sub_0_r in Hfields.
  rewrite Hrun, <- Hfields, length_map. reflexivity.
Qed.

Lemma split_csv_line_fields_witness :
  split_csv_line
    ([DQUOTE] ++ lit "say " ++ [DQUOTE; DQUOTE] ++ lit "hi" ++
     [DQUOTE; DQUOTE; DQUOTE] ++ lit " tail,7,it" ++ [DQUOTE] ++ lit "s,," ++
     [DQUOTE] ++ lit "rest, of")
    MAX_COLS ","
  = Some (5, [lit "ay " ++ [DQUOTE] ++ lit "hi" ++ [DQUOTE]; lit "7";
              lit "it" ++ [DQUOTE] ++ lit "s"; lit ""; lit "est, of"]).
Proof.
  apply (split_csv_line_fields "," MAX_COLS
           (Quoted (lit "say " ++ [DQUOTE] ++ lit "hi" ++ [DQUOTE]) (lit " tail"))
           [Bare (lit "7"); Bare (lit "it" ++ [DQUOTE] ++ lit "s");
            Bare (lit ""); Open (lit "rest, of")]);
    solve [discriminate | reflexivity].
Defined.

(** ** Line preparation *)

Lemma is_eol_not_nul (c : ascii) : is_eol c = true → c ≠ NUL.
Proof. intros H ->. discriminate H. Qed.

Lemma strlen_nul_free (s rest : list ascii) :
  Forall (λ c, c ≠ NUL) s → strlen (s ++ NUL :: rest) = length s.
Proof. intros H. unfold strlen. rewrite until_nul_app by assumption. reflexivity. Qed.

(** The loop writes the terminator over a trailing run of line ends and
    stops at the character before it. *)
Lemma chomp_loop_run (s : list ascii) :
  ends_eol s = false →
  ∀ t zs,
    forallb is_eol t = true →
    chomp_loop ((s ++ t) ++ zs) (length (s ++ t))
      = s ++ replicate (length t) NUL ++ zs.
Proof.
  intros Hs t. induction t as [|c t IH] using rev_ind; intros zs Ht.
  - rewrite app_nil_r. cbn [length replicate app].
    destruct s as [|c s _] using rev_ind; [reflexivity|].
    unfold ends_eol in Hs. rewrite last_snoc in Hs.
    rewrite length_app. cbn [length]. rewrite Nat.add_1_r. cbn [chomp_loop].
    replace ((s ++ [c]) ++ zs) with (s ++ c :: zs) by reassoc.
    rewrite rd_app_0. cbn [peek]. rewrite Hs. reflexivity.
  - rewrite forallb_app in Ht. apply andb_true_iff in Ht as [Ht Hc].
    simpl in Hc. rewrite andb_true_r in Hc.
    rewrite app_assoc, length_app. cbn [length]. rewrite Nat.add_1_r.
    cbn [chomp_loop].
    replace (((s ++ t) ++ [c]) ++ zs) with ((s ++ t) ++ c :: zs) by reassoc.
    rewrite rd_app_0. cbn [peek]. rewrite Hc, wr_app_0.
    rewrite (IH (NUL :: zs) Ht), length_app. cbn [length].
    rewrite Nat.add_1_r, replicate_S_end. reassoc.
Qed.

Lemma chomp_strips_run (s t : cstr) :
  nul_free s = true → ends_eol s = false → forallb is_eol t = true →
  chomp (s ++ t) = s.
Proof.
  intros Hn Hs Ht. apply nul_free_Forall in Hn.
  assert (Forall (λ c, c ≠ NUL) (s ++ t)) as Hall.
  { apply Forall_app. split; [exact Hn|].
    clear -Ht. induction t as [|c t IH]; [constructor|].
    simpl in Ht. apply andb_true_iff in Ht as [Hc Ht].
    constructor; [apply is_eol_not_nul, Hc | apply IH, Ht]. }
  unfold chomp. cbv zeta.
  rewrite strlen_nul_free by exact Hall.
  rewrite chomp_loop_run by assumption.
  unfold cstr_at. rewrite drop_0.
  destruct (length t) as [|k].
  - apply until_nul_app, Hn.
  - cbn [replicate app]. apply until_nul_app, Hn.
Qed.

(** Every string is a part that does not end in a line end followed by a
    run of line ends. *)
Lemma eol_run_split (s : cstr) :
  ∃ s' t, s = s' ++ t ∧ ends_eol s' = false ∧ forallb is_eol t = true.
Proof.
  induction s as [|c s (s' & t & -> & Hs' & Ht)] using rev_ind.
  - exists [], []. repeat split.
  - destruct (is_eol c) eqn:Hc.
    + exists s', (t ++ [c]). split; [reassoc|]. split; [exact Hs'|].
      rewrite forallb_app, Ht. simpl. rewrite Hc. reflexivity.
    + exists ((s' ++ t) ++ [c]), []. split; [rewrite app_nil_r; reflexivity|].
      split; [|reflexivity]. unfold ends_eol. rewrite last_snoc. exact Hc.
Qed.

Lemma chomp_app_eol (s e : cstr) :
  nul_free s = true → forallb is_eol e = true → chomp (s ++ e) = chomp s.
Proof.
  intros Hn He. destruct (eol_run_split s) as (s' & t & -> & Hs' & Ht).
  unfold nul_free in Hn. rewrite forallb_app in Hn.
  apply andb_true_iff in Hn as [Hn _].
  rewrite <- app_assoc, !chomp_strips_run;
    try first [assumption | rewrite forallb_app, Ht, He]; reflexivity.
Qed.

(** X9: [chomp] cuts the trailing run of line feeds and carriage returns
    and nothing else: the line is the result followed by characters that
    are all line feeds or carriage returns, and the result does not end in
    one. *)
Theorem chomp_cuts_trailing_line_ends (s : cstr) :
  nul_free s = true →
  ∃ t, s = chomp s ++ t ∧ forallb is_eol t = true ∧ ends_eol (chomp s) = false.
Proof.
  intros Hn. destruct (eol_run_split s) as (s' & t & -> & Hs' & Ht).
  unfold nul_free in Hn. rewrite forallb_app in Hn.
  apply andb_true_iff in Hn as [Hn _].
  rewrite chomp_strips_run by assumption.
  exists t. split; [reflexivity|]. split; assumption.
Qed.

Lemma chomp_cuts_trailing_line_ends_witness :
  ∃ t, lit "a,b" ++ [CR; LF; LF] = chomp (lit "a,b" ++ [CR; LF; LF]) ++ t ∧
       forallb is_eol t = true ∧
       ends_eol (chomp (lit "a,b" ++ [CR; LF; LF])) = false.
Proof.
  apply (chomp_cuts_trailing_line_ends (lit "a,b" ++ [CR; LF; LF])).
  reflexivity.
Defined.

Lemma is_eol_cases (c : ascii) : is_eol c = true → c = LF ∨ c = CR.
Proof.
  unfold is_eol. intros H. apply orb_true_iff in H as [H | H];
    apply Ascii.eqb_eq in H; auto.
Qed.

Lemma strip_bom_app_eol (s e : cstr) :
  forallb is_eol e = true → strip_bom (s ++ e) = strip_bom s ++ e.
Proof.
  intros He.
  assert (∀ b, b = ascii_of_nat 239 ∨ b = ascii_of_nat 187 ∨ b = ascii_of_nat 191 →
               Ascii.eqb (peek e) b = false) as Hpeek.
  { intros b Hb. destruct e as [|c e].
    - destruct Hb as [-> | [-> | ->]]; reflexivity.
    - simpl in He. apply andb_true_iff in He as [Hc _].
      apply is_eol_cases in Hc as [-> | ->];
        destruct Hb as [-> | [-> | ->]]; reflexivity. }
  unfold strip_bom.
  destruct s as [|a [|b [|c s]]]; cbn [app].
  - change (rd e 0) with (rd ([] ++ e) (length (@nil ascii))).
    rewrite rd_app_0, Hpeek by auto. reflexivity.
  - change (rd (a :: e) 1) with (rd ([a] ++ e) (length [a])).
    rewrite rd_app_0, Hpeek by auto.
    change (rd [a] 1) with NUL.
    change (Ascii.eqb NUL (ascii_of_nat 187)) with false.
    rewrite !andb_false_r. reflexivity.
  - change (rd (a :: b :: e) 2) with (rd ([a; b] ++ e) (length [a; b])).
    rewrite rd_app_0, Hpeek by auto.
    change (rd [a; b] 2) with NUL.
    change (Ascii.eqb NUL (ascii_of_nat 191)) with false.
    rewrite !andb_false_r. reflexivity.
  - change (rd (a :: b :: c :: s ++ e) 0) with a.
    change (rd (a :: b :: c :: s ++ e) 1) with b.
    change (rd (a :: b :: c :: s ++ e) 2) with c.
    change (rd (a :: b :: c :: s) 0) with a.
    change (rd (a :: b :: c :: s) 1) with b.
    change (rd (a :: b :: c :: s) 2) with c.
    destruct (_ && _ && _); reflexivity.
Qed.

Lemma nul_free_strip_bom (s : cstr) :
  nul_free s = true → nul_free (strip_bom s) = true.
Proof.
  intros H. unfold strip_bom. destruct (_ && _ && _); [|exact H].
  destruct s as [|a [|b [|c s]]]; try reflexivity.
  simpl in H |- *. repeat (apply andb_true_iff in H as [_ H]). exact H.
Qed.

(** Lines that differ in their trailing line feeds and carriage returns
    only are given the same types. *)
Lemma main_types_app_eol (lines : list cstr) (e1 e2 : cstr) :
  forallb nul_free lines = true →
  forallb is_eol e1 = true →
  forallb is_eol e2 = true →
  main_types (map (λ l, l ++ e1) lines) = main_types (map (λ l, l ++ e2) lines).
Proof.
  intros Hn He1 He2. destruct lines as [|first rest]; [reflexivity|].
  simpl in Hn. apply andb_true_iff in Hn as [Hfirst Hrest].
  cbn [map main_types]. f_equal.
  - rewrite !strip_bom_app_eol, !chomp_app_eol
      by first [assumption | apply nul_free_strip_bom, Hfirst].
    reflexivity.
  - rewrite !map_map. induction rest as [|l rest IH]; [reflexivity|].
    simpl in Hrest. apply andb_true_iff in Hrest as [Hl Hrest].
    cbn [map]. rewrite IH by exact Hrest.
    rewrite !chomp_app_eol by assumption. reflexivity.
Qed.

Lemma fgets_line (body rest : list ascii) :
  lf_free body = true →
  ∀ room, length body < room →
    fgets room (body ++ LF :: rest) = (body ++ [LF], rest).
Proof.
  induction body as [|c body IH]; intros Hlf room Hroom;
    (destruct room as [|room]; [simpl in Hroom; lia|]).
  - reflexivity.
  - simpl in Hlf. apply andb_true_iff in Hlf as [Hc Hlf].
    apply negb_true_iff in Hc. cbn [app fgets]. rewrite Hc.
    rewrite IH by (simpl in Hroom; first [assumption | lia]). reflexivity.
Qed.

(** A file made of lines that end in a line feed and fit in the buffer is
    read line by line. *)
Lemma read_lines_whole (size : nat) (lines : list cstr) :
  Forall (λ l, ∃ body, l = body ++ [LF] ∧ lf_free body = true ∧
                       length body + 1 < size) lines →
  ∀ fuel, length lines ≤ fuel →
    read_lines fuel size (concat lines) = lines.
Proof.
  induction 1 as [|l lines (body & -> & Hlf & Hfit) _ IH]; intros fuel Hfuel.
  - destruct fuel; reflexivity.
  - destruct fuel as [|fuel]; [simpl in Hfuel; lia|].
    cbn [concat read_lines]. rewrite <- app_assoc. cbn [app].
    destruct (body ++ LF :: concat lines) as [|c rest] eqn:E.
    { destruct body; discriminate E. }
    rewrite <- E, fgets_line by first [assumption | lia].
    rewrite IH by (simpl in Hfuel; lia). reflexivity.
Qed.

Lemma lf_free_app_cr (l : cstr) (k : nat) :
  lf_free l = true → lf_free (l ++ replicate k CR) = true.
Proof.
  intros H. unfold lf_free in *. rewrite forallb_app, H.
  induction k as [|k IH]; [reflexivity | exact IH].
Qed.

Lemma file_lines_terminated (size k : nat) (lines : list cstr) :
  forallb lf_free lines = true →
  forallb (λ l, length l + k + 1 <? size) lines = true →
  file_lines size (concat (map (λ l, l ++ replicate k CR ++ [LF]) lines))
    = map (λ l, l ++ replicate k CR ++ [LF]) lines.
Proof.
  intros Hlf Hfit. unfold file_lines. apply read_lines_whole.
  - clear -Hlf Hfit. induction lines as [|l lines IH]; [constructor|].
    simpl in Hlf, Hfit.
    apply andb_true_iff in Hlf as [Hl Hlf], Hfit as [Hf Hfit].
    apply Nat.ltb_lt in Hf. cbn [map]. constructor; [|apply IH; assumption].
    exists (l ++ replicate k CR). split; [reassoc|].
    split; [apply lf_free_app_cr, Hl|].
    rewrite length_app, length_replicate. lia.
  - clear. induction lines as [|l lines IH]; [reflexivity|].
    cbn [map concat]. rewrite !length_app. cbn [length].
    rewrite length_map in *. lia.
Qed.

Lemma is_eol_cr_lf (k : nat) : forallb is_eol (replicate k CR ++ [LF]) = true.
Proof.
  rewrite forallb_app. apply andb_true_iff. split; [|reflexivity].
  induction k as [|k IH]; [reflexivity | exact IH].
Qed.

(** X10: carriage returns before the line feeds do not matter: for a file
    whose lines hold no line feed and no terminator, all end in a line
    feed and fit in the line buffer, the types are the same with any
    number of carriage returns before each line feed as with any other
    number (CR LF against LF). *)
Theorem main_file_line_ends (size k1 k2 : nat) (lines : list cstr) :
  forallb nul_free lines = true →
  forallb lf_free lines = true →
  forallb (λ l, length l + k1 + 1 <? size) lines = true →
  forallb (λ l, length l + k2 + 1 <? size) lines = true →
  main_types
    (file_lines size (concat (map (λ l, l ++ replicate k1 CR ++ [LF]) lines)))
  = main_types
      (file_lines size (concat (map (λ l, l ++ replicate k2 CR ++ [LF]) lines))).
Proof.
  intros Hn Hlf Hfit1 Hfit2.
  rewrite !file_lines_terminated by assumption.
  apply main_types_app_eol; [exact Hn | apply is_eol_cr_lf | apply is_eol_cr_lf].
Qed.

Lemma main_file_line_ends_witness :
  main_types (file_lines LINE_BUF
                (lit "a,b" ++ [CR; LF] ++ lit "1,x" ++ [CR; LF] ++ lit "2,y" ++ [CR; LF]))
  = main_types (file_lines LINE_BUF
                  (lit "a,b" ++ [LF] ++ lit "1,x" ++ [LF] ++ lit "2,y" ++ [LF])).
Proof.
  apply (main_file_line_ends LINE_BUF 1 0 [lit "a,b"; lit "1,x"; lit "2,y"]);
    vm_compute; reflexivity.
Defined.



(** ** The JSON writer *)

(** X12: the escaped form of a header name reads back as the name: every
    quote and backslash in it is escaped, so no bare quote ends the JSON
    string early and two names are never printed alike. *)
Theorem json_escape_reads_back (h : cstr) :
  json_unescape (json_escape h) = Some h.
Proof.
  induction h as [|c h IH]; [reflexivity|].
  cbn [json_escape].
  destruct (Ascii.eqb c BACKSLASH || Ascii.eqb c DQUOTE) eqn:E.
  - cbn [json_unescape].
    change (Ascii.eqb BACKSLASH DQUOTE) with false.
    rewrite Ascii.eqb_refl, E, IH. reflexivity.
  - cbn [json_unescape]. apply orb_false_iff in E as [E1 E2].
    rewrite E1, E2, IH. reflexivity.
Qed.

Lemma commas_snoc (items : list (list ascii)) (x : list ascii) :
  commas (items ++ [x]) = commas items ++ comma_before (length items) ++ x.
Proof.
  induction items as [|y items IH]; [reflexivity|].
  destruct items as [|z items].
  - reflexivity.
  - change (commas ((y :: z :: items) ++ [x]))
      with (y ++ lit "," ++ commas ((z :: items) ++ [x])).
    rewrite IH.
    change (commas (y :: z :: items)) with (y ++ lit "," ++ commas (z :: items)).
    change (comma_before (length (y :: z :: items))) with (lit ",").
    change (comma_before (length (z :: items))) with (lit ",").
    rewrite <- !app_assoc. reflexivity.
Qed.

(** A loop that prints one item for each index prints the items with
    commas between them. *)
Lemma for_range_commas (item : nat → list ascii) (n : nat) (out : list ascii) :
  for_range n (λ i out, out ++ comma_before i ++ item i) out
    = out ++ commas (map item (seq 0 n)).
Proof.
  induction n as [|n IH].
  - simpl. rewrite app_nil_r. reflexivity.
  - rewrite for_range_S, IH, seq_S, map_app. cbn [map].
    rewrite commas_snoc, length_map, length_seq. cbn [Nat.add].
    rewrite <- !app_assoc. reflexivity.
Qed.

Lemma map_lookup_seq {A B : Type} (g : A → B) (d : A) (l : list A) :
  map (λ i, g (default d (l !! i))) (seq 0 (length l)) = map g l.
Proof.
  induction l as [|x l IH] using rev_ind; [reflexivity|].
  rewrite length_app. cbn [length]. rewrite Nat.add_1_r, seq_S, !map_app.
  cbn [map Nat.add]. f_equal.
  - rewrite <- IH. apply map_ext_in. intros i Hi. apply in_seq in Hi.
    rewrite lookup_app_l by lia. reflexivity.
  - rewrite list_lookup_middle by reflexivity. reflexivity.
Qed.

Lemma map_cell_at {B : Type} (g : cstr → B) (headers : list cstr) :
  map (λ i, g (cell_at headers i)) (seq 0 (length headers)) = map g headers.
Proof. unfold cell_at. apply (map_lookup_seq g [] headers). Qed.

(** The output of [print_json] in closed form. *)
Lemma print_json_closed (headers : list cstr) (types : list ColType) :
  length types = length headers →
  print_json headers types (length headers) =
    lit "{" ++ quoted (lit "columns") ++ lit ":[" ++
    commas (map (λ h, quoted (json_escape h)) headers) ++
    lit "]," ++ quoted (lit "types") ++ lit ":[" ++
    commas (map (λ t, quoted (type_name t)) types) ++
    lit "]}".
Proof.
  intros Hlen. unfold print_json. cbv zeta.
  rewrite (for_range_commas
             (λ i, quoted (type_name (default TYPE_UNKNOWN (types !! i))))).
  rewrite (for_range_commas (λ i, quoted (json_escape (cell_at headers i)))).
  rewrite <- Hlen at 2.
  rewrite (map_lookup_seq (λ t, quoted (type_name t)) TYPE_UNKNOWN types).
  rewrite (map_cell_at (λ h, quoted (json_escape h)) headers).
  rewrite <- !app_assoc. reflexivity.
Qed.

(** X13: for as many types as there are header names, [print_json] writes
    one object with the escaped names between quotes and commas under
    columns and the type names between quotes and commas under types, with
    no comma before the first item or after the last. *)
Theorem print_json_format (headers : list cstr) (types : list ColType) :
  length types = length headers →
  print_json headers types (length headers) =
    lit "{" ++ quoted (lit "columns") ++ lit ":[" ++
    commas (map (λ h, quoted (json_escape h)) headers) ++
    lit "]," ++ quoted (lit "types") ++ lit ":[" ++
    commas (map (λ t, quoted (type_name t)) types) ++
    lit "]}".
Proof.
  intros Hlen. unfold print_json. cbv zeta.
  rewrite (for_range_commas
             (λ i, quoted (type_name (default TYPE_UNKNOWN (types !! i))))).
  rewrite (for_range_commas (λ i, quoted (json_escape (cell_at headers i)))).
  rewrite <- Hlen at 2.
  rewrite (map_lookup_seq (λ t, quoted (type_name t)) TYPE_UNKNOWN types).
  rewrite (map_cell_at (λ h, quoted (json_escape h)) headers).
  rewrite <- !app_assoc. reflexivity.
Qed.

Lemma print_json_format_witness :
  print_json [lit "id"; lit "na" ++ [DQUOTE] ++ lit "me"]
    [TYPE_INTEGER; TYPE_UNKNOWN] 2 =
  lit "{" ++ quoted (lit "columns") ++ lit ":[" ++
  quoted (lit "id") ++ lit "," ++
  quoted (lit "na" ++ [BACKSLASH; DQUOTE] ++ lit "me") ++
  lit "]," ++ quoted (lit "types") ++ lit ":[" ++
  quoted (lit "INTEGER") ++ lit "," ++ quoted (lit "TEXT") ++ lit "]}".
Proof.
  apply (print_json_format [lit "id"; lit "na" ++ [DQUOTE] ++ lit "me"]
           [TYPE_INTEGER; TYPE_UNKNOWN]).
  reflexivity.
Defined.

Lemma for_range_ext {S : Type} (body1 body2 : nat → S → S) (n : nat) (s : S) :
  (∀ i s, i < n → body1 i s = body2 i s) →
  for_range n body1 s = for_range n body2 s.
Proof.
  induction n as [|n IH]; intros H; [reflexivity|].
  rewrite !for_range_S, IH by (intros; apply H; lia).
  apply H. lia.
Qed.

(** X14: the default of line 209 does not show in the output: Unknown is
    printed as TEXT, so the types print the same before and after it. *)
Theorem print_json_after_finalize (headers : list cstr) (types : list ColType)
  (n : nat) :
  print_json headers (finalize n types) n = print_json headers types n.
Proof.
  unfold print_json. cbv zeta. f_equal. apply for_range_ext.
  intros i out Hi. do 3 f_equal. rewrite finalize_lookup.
  destruct (decide (i < n)); [|lia].
  destruct (types !! i) as [[]|]; reflexivity.
Qed.

(** X15: for every file [main] returns and writes, in this order: the
    opening of the object and of the array under columns, the cells of the
    header line (after the byte order mark and the line end are cut), each
    between quotes with a backslash before every backslash and quote and
    every other byte as it is, with commas between them; the opening of the
    array under types, the name of the type of each column between quotes,
    as many as there are header cells, with commas between them; and the
    closing of both.  A file without lines or without header cells gives
    two empty arrays. *)
Theorem main_output_format (lines : list cstr) :
  let headers :=
    match lines with
    | [] => []
    | first :: _ => cells_of (chomp (strip_bom first))
    end in
  ∃ types,
    main_types lines = Some types ∧
    length types = length headers ∧
    main_output lines =
      Some (lit "{" ++ quoted (lit "columns") ++ lit ":[" ++
            commas (map (λ h, quoted (json_escape h)) headers) ++
            lit "]," ++ quoted (lit "types") ++ lit ":[" ++
            commas (map (λ t, quoted (type_name t)) types) ++
            lit "]}").
Proof.
  destruct lines as [|first rest]; cbv zeta.
  - exists []. repeat split.
  - set (h := chomp (strip_bom first)).
    cbn [main_types main_output]. fold h.
    rewrite infer_file_rows, split_csv_line_cells_of.
    destruct (length (cells_of h) =? 0) eqn:E.
    + exists []. apply Nat.eqb_eq in E.
      split; [reflexivity|]. split; [symmetry; exact E|].
      apply length_zero_iff_nil in E. rewrite E. reflexivity.
    + eexists. split; [reflexivity|].
      split; [apply length_infer_rows|].
      rewrite scan_lines_cells_of.
      rewrite <- print_json_closed by apply length_infer_rows.
      reflexivity.
Qed.

(** ** The grammar of the literals *)

Lemma isspace_class (c : ascii) :
  isspace c = true →
  isdigit c = false ∧ is_sign c = false ∧ is_exp c = false ∧
  Ascii.eqb c "." = false ∧ Ascii.eqb c NUL = false.
Proof.
  destruct c as [[] [] [] [] [] [] [] []]; intros H;
    solve [discriminate H | repeat split].
Qed.

Lemma isdigit_class (c : ascii) :
  isdigit c = true →
  isspace c = false ∧ is_sign c = false ∧ is_exp c = false ∧
  Ascii.eqb c "." = false ∧ Ascii.eqb c NUL = false.
Proof.
  destruct c as [[] [] [] [] [] [] [] []]; intros H;
    solve [discriminate H | repeat split].
Qed.

Lemma is_sign_class (c : ascii) :
  is_sign c = true →
  (c = "+"%char ∨ c = "-"%char) ∧ isspace c = false ∧ isdigit c = false.
Proof.
  unfold is_sign. intros H. apply orb_true_iff in H as [H | H];
    apply Ascii.eqb_eq in H; subst c; repeat split; auto.
Qed.

Lemma is_exp_class (c : ascii) :
  is_exp c = true → isspace c = false ∧ isdigit c = false.
Proof.
  unfold is_exp. intros H. apply orb_true_iff in H as [H | H];
    apply Ascii.eqb_eq in H; subst c; repeat split; auto.
Qed.

Lemma skip_space_split (s : cstr) :
  ∃ ws, s = ws ++ skip_space s ∧ forallb isspace ws = true ∧
        isspace (peek (skip_space s)) = false.
Proof.
  induction s as [|c s (ws & Hs & Hws & Hpeek)].
  - exists []. repeat split.
  - simpl. destruct (isspace c) eqn:Hc.
    + exists (c :: ws). split; [simpl; f_equal; exact Hs|].
      split; [simpl; rewrite Hc; exact Hws | exact Hpeek].
    + exists []. repeat split. exact Hc.
Qed.

Lemma skip_space_app (ws r : cstr) :
  forallb isspace ws = true → skip_space (ws ++ r) = skip_space r.
Proof.
  induction ws as [|c ws IH]; [reflexivity|]. simpl. intros H.
  apply andb_true_iff in H as [Hc H]. rewrite Hc. apply IH, H.
Qed.

Lemma skip_space_id (r : cstr) : isspace (peek r) = false → skip_space r = r.
Proof. destruct r as [|c r]; [reflexivity|]. simpl. intros ->. reflexivity. Qed.

Lemma skip_space_all (ws : cstr) : forallb isspace ws = true → skip_space ws = [].
Proof.
  intros H. rewrite <- (app_nil_r ws), skip_space_app by exact H. reflexivity.
Qed.

Lemma scan_digits_split (p : cstr) :
  ∀ b, ∃ ds,
    p = ds ++ snd (scan_digits b p) ∧ forallb isdigit ds = true ∧
    fst (scan_digits b p) = b || nonempty ds ∧
    isdigit (peek (snd (scan_digits b p))) = false.
Proof.
  induction p as [|c p IH]; intros b.
  - exists []. simpl. rewrite orb_false_r. repeat split.
  - simpl. destruct (isdigit c) eqn:Hc.
    + destruct (IH true) as (ds & Hp & Hds & Hfst & Hpeek).
      exists (c :: ds). simpl. rewrite Hc, orb_true_r.
      split; [f_equal; exact Hp|]. split; [exact Hds|].
      split; [exact Hfst | exact Hpeek].
    + exists []. simpl. rewrite orb_false_r. repeat split. exact Hc.
Qed.

Lemma scan_digits_app (ds r : cstr) :
  forallb isdigit ds = true → isdigit (peek r) = false →
  ∀ b, scan_digits b (ds ++ r) = (b || nonempty ds, r).
Proof.
  intros Hds Hr. induction ds as [|c ds IH]; intros b.
  - simpl. rewrite orb_false_r. destruct r as [|c r]; [reflexivity|].
    simpl in Hr |- *. rewrite Hr. reflexivity.
  - simpl in Hds |- *. apply andb_true_iff in Hds as [Hc Hds].
    rewrite Hc, IH by exact Hds. rewrite orb_true_r. reflexivity.
Qed.

(** The optional sign, as a prefix. *)
Lemma skip_sign_split (p : cstr) :
  ∃ sg, p = sg ++ skip_sign p ∧ (sg = [] ∨ sg = ["+"%char] ∨ sg = ["-"%char]).
Proof.
  unfold skip_sign. destruct (is_sign (peek p)) eqn:H.
  - destruct p as [|c p]; [discriminate H|]. simpl in H.
    apply is_sign_class in H as [[-> | ->] _].
    + exists ["+"%char]. split; [reflexivity | auto].
    + exists ["-"%char]. split; [reflexivity | auto].
  - exists []. split; [reflexivity | auto].
Qed.

Lemma skip_sign_app (sg r : cstr) :
  sg = [] ∨ sg = ["+"%char] ∨ sg = ["-"%char] →
  is_sign (peek r) = false → skip_sign (sg ++ r) = r.
Proof.
  intros [-> | [-> | ->]] Hr.
  - unfold skip_sign. simpl. rewrite Hr. reflexivity.
  - reflexivity.
  - reflexivity.
Qed.

Lemma peek_nul_free (p : cstr) : nul_free p = true → peek p = NUL → p = [].
Proof.
  destruct p as [|c p]; [reflexivity|]. simpl. intros H ->. discriminate H.
Qed.

Lemma peek_app_nonempty (a b : cstr) : a ≠ [] → peek (a ++ b) = peek a.
Proof. destruct a; [contradiction | reflexivity]. Qed.

Lemma forallb_peek (P : ascii → bool) (a : cstr) :
  a ≠ [] → forallb P a = true → P (peek a) = true.
Proof.
  destruct a as [|c a]; [contradiction|]. simpl. intros _ H.
  apply andb_true_iff in H as [H _]. exact H.
Qed.

Lemma isspace_peek (ws : cstr) :
  forallb isspace ws = true →
  isdigit (peek ws) = false ∧ is_sign (peek ws) = false ∧
  is_exp (peek ws) = false ∧ Ascii.eqb (peek ws) "." = false.
Proof.
  destruct ws as [|c ws]; [repeat split|]. simpl. intros H.
  apply andb_true_iff in H as [H _].
  apply isspace_class in H as (? & ? & ? & ? & _). repeat split; assumption.
Qed.

(** X16: the integer test accepts exactly the strings made of white space,
    an optional sign, one or more digits, and white space. *)
Theorem is_integer_grammar (s : cstr) :
  nul_free s = true →
  is_integer s = true ↔
  ∃ ws1 sg ds ws2,
    s = ws1 ++ sg ++ ds ++ ws2 ∧
    forallb isspace ws1 = true ∧
    (sg = [] ∨ sg = ["+"%char] ∨ sg = ["-"%char]) ∧
    ds ≠ [] ∧ forallb isdigit ds = true ∧
    forallb isspace ws2 = true.
Proof.
  intros Hn. split.
  - unfold is_integer. intros H.
    destruct (skip_space_split s) as (ws1 & Hs & Hws1 & _).
    destruct (skip_sign_split (skip_space s)) as (sg & Hp1 & Hsg).
    destruct (scan_digits_split (skip_sign (skip_space s)) false)
      as (ds & Hp2 & Hds & Hdig & _).
    destruct (scan_digits false (skip_sign (skip_space s))) as [dig p3].
    cbn [fst snd] in *.
    destruct (skip_space_split p3) as (ws2 & Hp3 & Hws2 & _).
    apply andb_true_iff in H as [Hd Hend]. apply Ascii.eqb_eq in Hend.
    assert (s = ws1 ++ sg ++ ds ++ ws2 ++ skip_space p3) as Hall.
    { rewrite Hs at 1. f_equal. rewrite Hp1 at 1. f_equal.
      rewrite Hp2 at 1. f_equal. exact Hp3. }
    assert (skip_space p3 = []) as Hnil.
    { apply peek_nul_free; [|exact Hend].
      rewrite Hall in Hn. unfold nul_free in Hn |- *.
      rewrite !forallb_app in Hn.
      repeat (apply andb_true_iff in Hn as [_ Hn]). exact Hn. }
    rewrite Hnil, app_nil_r in Hall.
    exists ws1, sg, ds, ws2. split; [exact Hall|].
    split; [exact Hws1|]. split; [exact Hsg|].
    split; [|split; assumption].
    intros ->. rewrite Hd in Hdig. discriminate Hdig.
  - intros (ws1 & sg & ds & ws2 & -> & Hws1 & Hsg & Hne & Hds & Hws2).
    unfold is_integer.
    pose proof (forallb_peek isdigit ds Hne Hds) as Hd0.
    apply isdigit_class in Hd0 as (Hd_sp & Hd_sg & _).
    rewrite skip_space_app by exact Hws1.
    rewrite skip_space_id.
    2: { destruct Hsg as [-> | [-> | ->]]; [|reflexivity|reflexivity].
         cbn [app]. rewrite peek_app_nonempty by exact Hne. exact Hd_sp. }
    rewrite skip_sign_app;
      [|exact Hsg | rewrite peek_app_nonempty by exact Hne; exact Hd_sg].
    rewrite scan_digits_app;
      [|exact Hds | apply isspace_peek, Hws2].
    rewrite skip_space_all by exact Hws2.
    destruct ds; [contradiction | reflexivity].
Qed.

Lemma is_integer_grammar_witness : is_integer (lit "  -042 ") = true.
Proof.
  apply (is_integer_grammar (lit "  -042 ")); [reflexivity|].
  exists (lit "  "), (lit "-"), (lit "042"), (lit " ").
  repeat split; auto.
Defined.

Lemma is_real_unfold (s : cstr) :
  is_real s =
    let '(dig, p) := scan_digits false (skip_sign (skip_space s)) in
    real_after_digits dig p.
Proof. reflexivity. Qed.

Lemma is_exp_not_dot (c : ascii) : is_exp c = true → Ascii.eqb c "." = false.
Proof.
  unfold is_exp. intros H. apply orb_true_iff in H as [H | H];
    apply Ascii.eqb_eq in H; subst c; reflexivity.
Qed.

Lemma nonempty_false (s : cstr) : nonempty s = false → s = [].
Proof. destruct s; [reflexivity | discriminate]. Qed.

Lemma nul_free_app (a b : cstr) :
  nul_free (a ++ b) = true → nul_free a = true ∧ nul_free b = true.
Proof.
  unfold nul_free. rewrite forallb_app. apply andb_true_iff.
Qed.

(** The character after the mantissa is no digit and no dot. *)
Lemma exponent_peek (ex ws2 : cstr) :
  exponent_part ex → forallb isspace ws2 = true →
  isdigit (peek (ex ++ ws2)) = false ∧
  Ascii.eqb (peek (ex ++ ws2)) "." = false.
Proof.
  intros [-> | (e & sg & ed & -> & He & _)] Hws.
  - cbn [app]. destruct (isspace_peek ws2 Hws) as (? & _ & _ & ?). split; assumption.
  - cbn [app peek]. split; [apply is_exp_class, He | apply is_exp_not_dot, He].
Qed.

Lemma real_after_mantissa_iff (p : cstr) :
  nul_free p = true →
  real_after_mantissa p = true ↔
  ∃ ex ws2, p = ex ++ ws2 ∧ exponent_part ex ∧ forallb isspace ws2 = true.
Proof.
  intros Hn. unfold real_after_mantissa. split.
  - destruct (is_exp (peek p)) eqn:He.
    + destruct p as [|e p5]; [discriminate He|]. cbn [peek tail] in *.
      destruct (skip_sign_split p5) as (sg & Hp5 & Hsg).
      destruct (scan_digits_split (skip_sign p5) false)
        as (ed & Hp6 & Hed & Hexpd & _).
      destruct (scan_digits false (skip_sign p5)) as [expd p7].
      cbn [fst snd] in *.
      destruct expd; [|discriminate]. cbn [negb]. intros Hend.
      apply Ascii.eqb_eq in Hend.
      destruct (skip_space_split p7) as (ws2 & Hp7 & Hws2 & _).
      assert (e :: p5 = (e :: sg ++ ed) ++ ws2 ++ skip_space p7) as Hall.
      { cbn [app]. f_equal. rewrite Hp5 at 1. rewrite <- app_assoc. f_equal.
        rewrite Hp6 at 1. f_equal. exact Hp7. }
      assert (skip_space p7 = []) as Hnil.
      { apply peek_nul_free; [|exact Hend]. rewrite Hall in Hn.
        apply nul_free_app in Hn as [_ Hn].
        apply nul_free_app in Hn as [_ Hn]. exact Hn. }
      rewrite Hnil, app_nil_r in Hall.
      exists (e :: sg ++ ed), ws2. split; [exact Hall|].
      split; [|exact Hws2]. right. exists e, sg, ed.
      split; [reflexivity|]. split; [exact He|]. split; [exact Hsg|].
      split; [|exact Hed]. intros ->. discriminate Hexpd.
    + intros Hend. apply Ascii.eqb_eq in Hend.
      destruct (skip_space_split p) as (ws2 & Hp & Hws2 & _).
      assert (skip_space p = []) as Hnil.
      { apply peek_nul_free; [|exact Hend]. rewrite Hp in Hn.
        apply nul_free_app in Hn as [_ Hn]. exact Hn. }
      rewrite Hnil, app_nil_r in Hp.
      exists [], ws2. split; [exact Hp|]. split; [left; reflexivity | exact Hws2].
  - intros (ex & ws2 & -> & Hex & Hws2).
    destruct Hex as [-> | (e & sg & ed & -> & He & Hsg & Hne & Hed)].
    + cbn [app]. destruct (isspace_peek ws2 Hws2) as (_ & _ & -> & _).
      rewrite skip_space_all by exact Hws2. reflexivity.
    + cbn [app peek tail]. rewrite He.
      pose proof (forallb_peek isdigit ed Hne Hed) as Hd0.
      apply isdigit_class in Hd0 as (_ & Hd_sg & _).
      rewrite <- app_assoc.
      rewrite skip_sign_app;
        [|exact Hsg | rewrite peek_app_nonempty by exact Hne; exact Hd_sg].
      rewrite scan_digits_app; [|exact Hed | apply isspace_peek, Hws2].
      destruct ed; [contradiction|]. cbn [nonempty orb negb].
      rewrite skip_space_all by exact Hws2. reflexivity.
Qed.

Lemma real_after_digits_iff (dig : bool) (p : cstr) :
  nul_free p = true →
  real_after_digits dig p = true ↔
  ∃ fr ex ws2,
    p = fr ++ ex ++ ws2 ∧ fraction_part dig fr ∧ exponent_part ex ∧
    forallb isspace ws2 = true.
Proof.
  intros Hn. unfold real_after_digits. split.
  - destruct (Ascii.eqb (peek p) ".") eqn:Hdot.
    + destruct p as [|c p4]; [discriminate Hdot|]. cbn [peek tail] in *.
      apply Ascii.eqb_eq in Hdot. subst c.
      destruct (scan_digits_split p4 dig) as (fp & Hp4 & Hfp & Hdig & _).
      destruct (scan_digits dig p4) as [dig' p5]. cbn [fst snd] in *.
      destruct dig'; [|discriminate]. cbn [negb]. intros Hrest.
      apply real_after_mantissa_iff in Hrest as (ex & ws2 & Hp5 & Hex & Hws2).
      2: { rewrite Hp4 in Hn. simpl in Hn.
           apply nul_free_app in Hn as [_ Hn]. exact Hn. }
      exists ("."%char :: fp), ex, ws2. split.
      { cbn [app]. f_equal. rewrite Hp4 at 1. f_equal. exact Hp5. }
      split; [|split; assumption]. right. exists fp.
      split; [reflexivity|]. split; [exact Hfp | symmetry; exact Hdig].
    + destruct dig; [|discriminate]. cbn [negb]. intros Hrest.
      apply real_after_mantissa_iff in Hrest as (ex & ws2 & Hp & Hex & Hws2);
        [|exact Hn].
      exists [], ex, ws2. split; [exact Hp|].
      split; [left; split; reflexivity | split; assumption].
  - intros (fr & ex & ws2 & -> & Hfr & Hex & Hws2).
    destruct (exponent_peek ex ws2 Hex Hws2) as [Hnd Hndot].
    assert (real_after_mantissa (ex ++ ws2) = true) as Hrest.
    { apply real_after_mantissa_iff.
      - destruct Hfr as [[-> _] | (fp & -> & _)]; [exact Hn|].
        simpl in Hn. apply nul_free_app in Hn as [_ Hn]. exact Hn.
      - exists ex, ws2. split; [reflexivity | split; assumption]. }
    destruct Hfr as [[-> ->] | (fp & -> & Hfp & Hdig)].
    + cbn [app]. rewrite Hndot. exact Hrest.
    + cbn [app peek tail]. rewrite Ascii.eqb_refl, scan_digits_app by assumption.
      rewrite Hdig. exact Hrest.
Qed.

Lemma mantissa_peek (ip fr ex ws2 : cstr) :
  forallb isdigit ip = true → fraction_part (nonempty ip) fr →
  exponent_part ex → forallb isspace ws2 = true →
  isspace (peek (ip ++ fr ++ ex ++ ws2)) = false ∧
  is_sign (peek (ip ++ fr ++ ex ++ ws2)) = false ∧
  isdigit (peek (fr ++ ex ++ ws2)) = false.
Proof.
  intros Hip Hfr Hex Hws2.
  assert (isdigit (peek (fr ++ ex ++ ws2)) = false) as Hnd.
  { destruct Hfr as [[-> _] | (fp & -> & _)]; [|reflexivity].
    apply (exponent_peek ex ws2 Hex Hws2). }
  destruct ip as [|c ip].
  - destruct Hfr as [[_ Hf] | (fp & -> & _)]; [discriminate Hf|].
    repeat split; exact Hnd.
  - cbn [app peek]. simpl in Hip. apply andb_true_iff in Hip as [Hc _].
    apply isdigit_class in Hc as (? & ? & _). repeat split; assumption.
Qed.

(** X17: the real test accepts exactly the strings made of white space, an
    optional sign, digits with an optional dot and digits after it (at
    least one digit before or after the dot), an optional exponent (a
    marker e or E, an optional sign, one or more digits), and white
    space. *)
Theorem is_real_grammar (s : cstr) :
  nul_free s = true →
  is_real s = true ↔
  ∃ ws1 sg ip fr ex ws2,
    s = ws1 ++ sg ++ ip ++ fr ++ ex ++ ws2 ∧
    forallb isspace ws1 = true ∧
    sign_opt sg ∧
    forallb isdigit ip = true ∧
    fraction_part (nonempty ip) fr ∧
    exponent_part ex ∧
    forallb isspace ws2 = true.
Proof.
  intros Hn. rewrite is_real_unfold. split.
  - destruct (skip_space_split s) as (ws1 & Hs & Hws1 & _).
    destruct (skip_sign_split (skip_space s)) as (sg & Hp1 & Hsg).
    destruct (scan_digits_split (skip_sign (skip_space s)) false)
      as (ip & Hp2 & Hip & Hdig & _).
    destruct (scan_digits false (skip_sign (skip_space s))) as [dig p3].
    cbn [fst snd orb] in *. subst dig. intros Hrest.
    assert (s = ws1 ++ sg ++ ip ++ p3) as Hall.
    { rewrite Hs at 1. f_equal. rewrite Hp1 at 1. f_equal. exact Hp2. }
    assert (nul_free p3 = true) as Hn3.
    { rewrite Hall in Hn. apply nul_free_app in Hn as [_ Hn].
      apply nul_free_app in Hn as [_ Hn].
      apply nul_free_app in Hn as [_ Hn]. exact Hn. }
    apply (real_after_digits_iff _ _ Hn3) in Hrest
      as (fr & ex & ws2 & Hp3 & Hfr & Hex & Hws2).
    subst p3. exists ws1, sg, ip, fr, ex, ws2. repeat split; assumption.
  - intros (ws1 & sg & ip & fr & ex & ws2 & -> & Hws1 & Hsg & Hip & Hfr & Hex & Hws2).
    destruct (mantissa_peek ip fr ex ws2 Hip Hfr Hex Hws2) as (Hsp & Hsn & Hnd).
    rewrite skip_space_app by exact Hws1.
    rewrite skip_space_id.
    2: { destruct Hsg as [-> | [-> | ->]]; [exact Hsp | reflexivity | reflexivity]. }
    rewrite skip_sign_app by assumption.
    rewrite scan_digits_app by assumption. cbn [orb].
    apply real_after_digits_iff.
    + apply nul_free_app in Hn as [_ Hn]. apply nul_free_app in Hn as [_ Hn].
      apply nul_free_app in Hn as [_ Hn]. exact Hn.
    + exists fr, ex, ws2. repeat split; assumption.
Qed.

Lemma is_real_grammar_witness : is_real (lit " -.5E+10 ") = true.
Proof.
  apply (is_real_grammar (lit " -.5E+10 ")); [reflexivity|].
  exists (lit " "), (lit "-"), (lit ""), (lit ".5"), (lit "E+10"), (lit " ").
  split; [reflexivity|]. split; [reflexivity|].
  split; [right; right; reflexivity|]. split; [reflexivity|].
  split; [right; exists (lit "5"); repeat split|].
  split; [|reflexivity].
  right. exists "E"%char, (lit "+"), (lit "10").
  split; [reflexivity|]. split; [reflexivity|].
  split; [right; left; reflexivity|]. split; [discriminate | reflexivity].
Defined.

(** ** Real against integer *)

(** X18: a string that passes the real test and fails the integer test
    holds a dot or an exponent marker. *)
Theorem real_not_integer_has_marker (s : cstr) :
  is_real s = true →
  is_integer s = false →
  ∃ c, c ∈ s ∧ (c = "."%char ∨ c = "e"%char ∨ c = "E"%char).
Proof.
  rewrite is_real_unfold. unfold is_integer.
  destruct (skip_space_split s) as (ws1 & Hs & _).
  destruct (skip_sign_split (skip_space s)) as (sg & Hp1 & _).
  destruct (scan_digits_split (skip_sign (skip_space s)) false)
    as (ip & Hp2 & _).
  destruct (scan_digits false (skip_sign (skip_space s))) as [dig p3].
  cbn [fst snd] in *.
  assert (∀ c, c ∈ p3 → c ∈ s) as Hin.
  { intros c Hc. rewrite Hs, Hp1, Hp2, !elem_of_app. auto. }
  unfold real_after_digits, real_after_mantissa.
  destruct (Ascii.eqb (peek p3) ".") eqn:Hdot.
  - intros _ _. destruct p3 as [|c p3]; [discriminate Hdot|].
    apply Ascii.eqb_eq in Hdot. simpl in Hdot. subst c.
    exists "."%char. split; [apply Hin; left | auto].
  - destruct (is_exp (peek p3)) eqn:He.
    + intros _ _. destruct p3 as [|c p3]; [discriminate He|].
      simpl in He. exists c. split; [apply Hin; left|].
      unfold is_exp in He. apply orb_true_iff in He as [He | He];
        apply Ascii.eqb_eq in He; auto.
    + destruct dig; cbn [negb andb]; intros Hr Hi; congruence.
Qed.

Lemma real_not_integer_has_marker_witness :
  ∃ c, c ∈ lit "12e3" ∧ (c = "."%char ∨ c = "e"%char ∨ c = "E"%char).
Proof.
  apply (real_not_integer_has_marker (lit "12e3")); reflexivity.
Defined.

(** ** Nothing is lost on a line without quotes *)

Lemma join_with_cons (d : ascii) (x : cstr) (items : list cstr) :
  items ≠ [] → join_with d (x :: items) = x ++ d :: join_with d items.
Proof. destruct items; [contradiction | reflexivity]. Qed.

Lemma join_with_split_on (d : ascii) (l : cstr) :
  join_with d (split_on d l) = l.
Proof.
  induction l as [|c l IH]; [reflexivity|].
  pose proof (split_on_nonempty d l) as Hne. cbn [split_on].
  destruct (Ascii.eqb c d) eqn:E.
  - apply Ascii.eqb_eq in E. subst c.
    rewrite join_with_cons, IH by exact Hne. reflexivity.
  - destruct (split_on d l) as [|f fs]; [contradiction|].
    destruct fs as [|g fs].
    + simpl in IH |- *. rewrite IH. reflexivity.
    + rewrite join_with_cons in IH |- * by discriminate.
      cbn [app]. rewrite IH. reflexivity.
Qed.

(** X19: on a line without quotes, with room for all fields, no character
    is lost or changed: the fields written out with the delimiter between
    them give back the line, up to one delimiter at the end of the line. *)
Theorem split_csv_line_joins_back (line : cstr) (d : ascii) (max_cells : nat) :
  nul_free line = true →
  quote_free line = true →
  d ≠ NUL →
  length (split_on d line) ≤ max_cells →
  ∃ n fs,
    split_csv_line line max_cells d = Some (n, fs) ∧
    (line = join_with d fs ∨ line = join_with d fs ++ [d]).
Proof.
  intros Hn Hq Hd Hmax.
  rewrite split_csv_line_unquoted by assumption. cbv zeta.
  rewrite take_ge
    by (pose proof (length_drop_empty_last (split_on d line)); lia).
  eexists _, _. split; [reflexivity|].
  destruct line as [|c line _] using rev_ind; [left; reflexivity|].
  destruct (Ascii.eqb c d) eqn:E.
  - apply Ascii.eqb_eq in E. subst c. right.
    rewrite split_on_snoc, drop_empty_last_snoc, join_with_split_on.
    reflexivity.
  - left. rewrite split_on_last_nonempty, join_with_split_on.
    + reflexivity.
    + destruct line; discriminate.
    + rewrite last_snoc. apply Ascii.eqb_neq in E. congruence.
Qed.

Lemma split_csv_line_joins_back_witness :
  ∃ n fs,
    split_csv_line (lit "a,,b c,") 8 "," = Some (n, fs) ∧
    (lit "a,,b c," = join_with "," fs ∨ lit "a,,b c," = join_with "," fs ++ [","%char]).
Proof.
  apply (split_csv_line_joins_back (lit "a,,b c,") "," 8);
    solve [reflexivity | discriminate | vm_compute; lia].
Defined.
